(** * letsdebug: the CAA authorization evaluator and the HTTP-01
      validation-fetch simulator

    A shallow embedding of [generic.go] (the CAA checker) and of the HTTP
    checker ([checkHTTP], [translateHTTPError] and the diagnostics they
    build), with the properties the specification states about them.

    Strings are Go strings seen as byte sequences ([string] of the Standard
    Library); Go's [int] values that count things are [nat], the others [Z];
    a Go [error] is a small inductive type of the error kinds the code can
    tell apart. *)

From Stdlib Require Import String Ascii List ZArith Lia Bool Arith.
From Stdlib Require Import DecimalString Sorted.
Import ListNotations.
Open Scope string_scope.
Open Scope list_scope.

(** ** The parts of Go's [strings], [strconv] and [fmt] packages the code uses *)

Module GoStrings.

(** [len(s)] *)
Definition len (s : string) : nat := String.length s.

(** Slices [s[n:]] and [s[:n]], for [n <= len(s)]. *)
Fixpoint drop (n : nat) (s : string) : string :=
  match n, s with
  | O, _ => s
  | S n', String _ s' => drop n' s'
  | S _, EmptyString => EmptyString
  end.

Fixpoint take (n : nat) (s : string) : string :=
  match n, s with
  | O, _ => EmptyString
  | S n', String c s' => String c (take n' s')
  | S _, EmptyString => EmptyString
  end.

(** [strings.HasPrefix(s, prefix)] *)
Definition HasPrefix (s prefix : string) : bool := String.prefix prefix s.

(** [strings.HasSuffix(s, suffix)]:
    [len(s) >= len(suffix) && s[len(s)-len(suffix):] == suffix] *)
Definition HasSuffix (s suffix : string) : bool :=
  (len suffix <=? len s)%nat && String.eqb (drop (len s - len suffix) s) suffix.

(** [strings.Index(s, sep)]: the index of the first instance of [sep] in [s];
    Go's [-1] is [None]. *)
Fixpoint Index (s sep : string) : option nat :=
  if String.prefix sep s then Some O
  else match s with
       | EmptyString => None
       | String _ s' => option_map S (Index s' sep)
       end.

(** [strings.LastIndexByte(s, c)] and [strings.IndexByte(s, c)] *)
Fixpoint LastIndexByte (s : string) (c : ascii) : option nat :=
  match s with
  | EmptyString => None
  | String d s' =>
      match LastIndexByte s' c with
      | Some i => Some (S i)
      | None => if Ascii.eqb d c then Some O else None
      end
  end.

Definition IndexByte (s : string) (c : ascii) : option nat :=
  Index s (String c EmptyString).

(** [strings.SplitN(s, sep, n)] for a non-empty separator and [n >= 0]:
    at most [n] pieces, the last one being the unsplit remainder. *)
Fixpoint SplitN (s sep : string) (n : nat) : list string :=
  match n with
  | O => []
  | S O => [s]
  | S n' =>
      match Index s sep with
      | None => [s]
      | Some m => take m s :: SplitN (drop (m + len sep) s) sep n'
      end
  end.

(** Membership of a byte in a cutset. *)
Fixpoint inCutset (c : ascii) (cutset : string) : bool :=
  match cutset with
  | EmptyString => false
  | String d cutset' => Ascii.eqb c d || inCutset c cutset'
  end.

(** [strings.TrimLeft], [strings.TrimRight] and [strings.Trim] for a cutset
    of ASCII bytes. *)
Fixpoint TrimLeft (s cutset : string) : string :=
  match s with
  | EmptyString => EmptyString
  | String c s' => if inCutset c cutset then TrimLeft s' cutset else s
  end.

Fixpoint TrimRight (s cutset : string) : string :=
  match s with
  | EmptyString => EmptyString
  | String c s' =>
      match TrimRight s' cutset with
      | EmptyString => if inCutset c cutset then EmptyString else String c EmptyString
      | t => String c t
      end
  end.

Definition Trim (s cutset : string) : string :=
  TrimLeft (TrimRight s cutset) cutset.

(** [strings.ToLower] on the ASCII range (bytes from 0x80 up are kept; no
    non-ASCII letter lowers to one of the letters of [http] or [https], so
    the scheme test of the redirect policy is not affected). *)
Definition lowerByte (c : ascii) : ascii :=
  let n := nat_of_ascii c in
  if ((65 <=? n) && (n <=? 90))%nat then ascii_of_nat (n + 32) else c.

Fixpoint ToLower (s : string) : string :=
  match s with
  | EmptyString => EmptyString
  | String c s' => String (lowerByte c) (ToLower s')
  end.

(** [strings.Join(elems, sep)] *)
Definition Join (elems : list string) (sep : string) : string :=
  String.concat sep elems.

(** [%d] of [fmt.Sprintf] for a length, and [%t] for a boolean. *)
Definition fmt_d (n : nat) : string := NilZero.string_of_uint (Nat.to_uint n).

Definition fmt_t (b : bool) : string := if b then "true" else "false".

(** [strconv.Atoi] as the code uses it ([port, _ := strconv.Atoi(p)], the
    error dropped): the value of an optionally signed decimal numeral,
    saturated to the range of a 64-bit [int], and [0] on a syntax error. *)
Definition digitOf (c : ascii) : option Z :=
  let n := nat_of_ascii c in
  if ((48 <=? n) && (n <=? 57))%nat then Some (Z.of_nat (n - 48)) else None.

Fixpoint digitsValue (acc : Z) (s : string) : option Z :=
  match s with
  | EmptyString => Some acc
  | String c s' =>
      match digitOf c with
      | Some d => digitsValue (acc * 10 + d)%Z s'
      | None => None
      end
  end.

Definition saturate (z : Z) : Z :=
  Z.max (- 2 ^ 63)%Z (Z.min (2 ^ 63 - 1)%Z z).

Definition unsignedValue (s : string) : option Z :=
  match s with
  | EmptyString => None
  | _ => digitsValue 0%Z s
  end.

Definition Atoi (s : string) : Z :=
  match s with
  | String "+" s' => match unsignedValue s' with Some v => saturate v | None => 0%Z end
  | String "-" s' => match unsignedValue s' with Some v => saturate (- v) | None => 0%Z end
  | _ => match unsignedValue s with Some v => saturate v | None => 0%Z end
  end.

(** The double-quote byte, for messages that quote a name. *)
Definition dquote : string := String (ascii_of_nat 34) EmptyString.

End GoStrings.
Import GoStrings.

(** ** generic.go: [extractIssuerDomain] *)

(** [strings.Trim(strings.SplitN(value, ";", 2)[0], " \t")]; the index [0]
    is in range because [SplitN] with [n = 2] never returns an empty slice. *)
Definition tab : ascii := ascii_of_nat 9.

Definition spaceTab : string := String " " (String tab EmptyString).

Definition extractIssuerDomain (value : string) : string :=
  match SplitN value ";" 2 with
  | field :: _ => Trim field spaceTab
  | [] => EmptyString
  end.

(** ** Go errors *)

(** The error values the two checkers can tell apart: the checker's own
    [redirectError] (a string type), the [*url.Error] in which
    [http.Client.Do] wraps whatever stopped a request, and every other
    error (transport, DNS, [fmt.Errorf]), known by its text only. *)
Inductive error : Type :=
| redirectError (msg : string)
| urlError (Op URL : string) (Err : error)
| errorString (msg : string).

(** [e.Error()]; for [*url.Error] the text is [Op "URL": Err] (the URL quoted
    as it is, which is what [%q] gives when nothing needs an escape). *)
Fixpoint Error (e : error) : string :=
  match e with
  | redirectError msg => msg
  | urlError op url err => op ++ " " ++ dquote ++ url ++ dquote ++ ": " ++ Error err
  | errorString msg => msg
  end.

(** ** The diagnostic report *)

(** Modelled from the spec: the severity enumeration is declared in another
    file of the package; the spec lists Warning, Error, Fatal and one internal
    variant.  [SeverityUnset] is the zero value, carried by the empty
    [Problem{}]. *)
Inductive SeverityLevel : Type :=
| SeverityUnset
| SeverityWarning
| SeverityError
| SeverityFatal
| SeverityInternal.

(** Modelled from the spec: the [Problem] struct is declared in another file
    of the package; its four fields are the ones the composite literals of
    the checkers fill in. *)
Record Problem : Type := mkProblem {
  Name : string;
  Explanation : string;
  Detail : string;
  Severity : SeverityLevel
}.

(** [Problem{}] *)
Definition noProblem : Problem := mkProblem "" "" "" SeverityUnset.

(** ** generic.go: the CAA checker *)

(** [dns.CAA]: the header (owner name, class, TTL, shown here by its text) is
    never read by the checker; [Flag] is a [uint8]. *)
Record CAA : Type := mkCAA {
  Hdr : string;
  Flag : Z;
  Tag : string;
  Value : string
}.

(** [dns.RR]: an answer is a CAA record or a record of another type (the
    type assertion of [rr] to a CAA record fails on the latter). *)
Inductive RR : Type :=
| RR_CAA (c : CAA)
| RR_other (text : string).

(** What a call of [Check] does: it returns its two results, or it stops on a
    run-time panic (the index expression [splitDomain[1]]). *)
Inductive CheckResult : Type :=
| Returned (probs : list Problem) (err : option error)
| Panicked.

(** The three slices the classification loop fills. *)
Record caaSets : Type := mkSets {
  issue : list CAA;
  issuewild : list CAA;
  criticalUnknown : list CAA
}.

Section CAAChecker.

(** [ValidationMethod] is declared in another file of the package; [Check]
    only passes it on. *)
Variable ValidationMethod : Type.

(** [ctx.Lookup(name, dns.TypeCAA)]: the DNS collaborator, with Go's pair of
    results. *)
Variable Lookup : string -> list RR * option error.

(** [publicsuffix.PublicSuffix(domain)] (its second result is dropped). *)
Variable PublicSuffix : string -> string.

(** [dnsLookupFailed(name, rrType, err)], a diagnostic built in another
    file of the package. *)
Variable dnsLookupFailed : string -> string -> error -> Problem.

(** The [String()] method of a CAA record, its presentation format. *)
Variable CAA_String : CAA -> string.

Definition collateRecords (records : list CAA) : string :=
  Join (map CAA_String records) (String (ascii_of_nat 10) EmptyString).

Definition caaCriticalUnknown (domain : string) (wildcard : bool) (records : list CAA) : Problem :=
  {| Name := "CaaCriticalUnknown";
     Explanation :=
       "CAA record(s) exist on " ++ domain ++ " (wildcard=" ++ fmt_t wildcard ++
       ") that are marked as critical but are unknown to Let's Encrypt. " ++
       "These record(s) as shown in the detail must be removed, or marked as non-critical, before a certificate can be issued by the Let's Encrypt CA.";
     Detail := collateRecords records;
     Severity := SeverityFatal |}.

Definition caaIssuanceNotAllowed (domain : string) (wildcard : bool) (records : list CAA) : Problem :=
  {| Name := "CaaIssuanceNotAllowed";
     Explanation :=
       "No CAA record on " ++ domain ++ " (wildcard=" ++ fmt_t wildcard ++
       ") contains the issuance domain " ++ dquote ++ "letsencrypt.org" ++ dquote ++ ". " ++
       "You must either add an additional record to include " ++ dquote ++ "letsencrypt.org" ++ dquote ++
       " or remove every existing CAA record. " ++
       "A list of the CAA records are provided in the details.";
     Detail := collateRecords records;
     Severity := SeverityFatal |}.

(** One turn of the loop [for _, rr := range rrs], lines 35 to 54. *)
Definition classifyStep (sets : caaSets) (rr : RR) : caaSets :=
  match rr with
  | RR_other _ => sets
  | RR_CAA caaRr =>
      if String.eqb (Tag caaRr) "issue" then
        mkSets (issue sets ++ [caaRr]) (issuewild sets) (criticalUnknown sets)
      else if String.eqb (Tag caaRr) "issuewild" then
        mkSets (issue sets) (issuewild sets ++ [caaRr]) (criticalUnknown sets)
      else if String.eqb (Tag caaRr) "iodef" then
        sets
      else if Z.eqb (Flag caaRr) 1 then
        mkSets (issue sets) (issuewild sets) (criticalUnknown sets ++ [caaRr])
      else sets
  end.

Definition classify (rrs : list RR) : caaSets :=
  fold_left classifyStep rrs (mkSets [] [] []).

(** The loop [for _, r := range records] with its early return. *)
Definition authorizes (r : CAA) : bool :=
  String.eqb (extractIssuerDomain (Value r)) "letsencrypt.org".

(** Lines 30 to 79: the findings when the lookup answered with records. *)
Definition checkRecords (domain : string) (wildcard : bool) (rrs : list RR) : list Problem :=
  let sets := classify rrs in
  if (0 <? length (criticalUnknown sets))%nat then
    [caaCriticalUnknown domain wildcard (criticalUnknown sets)]
  else if (length (issue sets) =? 0)%nat && negb wildcard then
    []
  else
    let records :=
      if wildcard && (0 <? length (issuewild sets))%nat then issuewild sets else issue sets in
    if existsb authorizes records then []
    else [caaIssuanceNotAllowed domain wildcard records].

(** Lines 17 to 21: the wildcard marker. *)
Definition isWildcard (domain : string) : bool := HasPrefix domain "*.".

Definition stripWildcard (domain : string) : string :=
  if isWildcard domain then drop 2 domain else domain.

(** The body of [caaChecker.Check]; [self] stands for the recursive call
    [c.Check] of line 86.  A call returns [None] when the recursion bound
    below was too small, and otherwise the names handed to [ctx.Lookup],
    in order, with what the call did. *)
Definition Check_body
    (self : string -> ValidationMethod -> option (list string * CheckResult))
    (domain : string) (method : ValidationMethod)
  : option (list string * CheckResult) :=
  let wildcard := isWildcard domain in
  let domain := stripWildcard domain in
  match Lookup domain with
  | (_, Some err) =>
      Some ([domain], Returned [dnsLookupFailed domain "CAA" err] None)
  | (rrs, None) =>
      if (0 <? length rrs)%nat then
        Some ([domain], Returned (checkRecords domain wildcard rrs) None)
      else if negb (String.eqb domain (PublicSuffix domain)) then
        match SplitN domain "." 2 with
        | _ :: parent :: _ =>
            match self parent method with
            | None => None
            | Some (queried, Panicked) => Some (domain :: queried, Panicked)
            | Some (queried, Returned _ (Some err)) =>
                Some (domain :: queried,
                      Returned [] (Some (errorString
                        ("error checking caa record on domain: " ++ parent ++ ", " ++ Error err))))
            | Some (queried, Returned parentProbs None) =>
                Some (domain :: queried, Returned parentProbs None)
            end
        | _ => Some ([domain], Panicked)
        end
      else Some ([domain], Returned [] None)
  end.

(** [caaChecker.Check].  The recursion is on the parent domain, a proper
    suffix of the domain, so a bound of one more than the length of the
    domain is never reached ([Check_total] below). *)
Fixpoint Check_rec (depth : nat) (domain : string) (method : ValidationMethod)
  : option (list string * CheckResult) :=
  match depth with
  | O => None
  | S depth' => Check_body (Check_rec depth') domain method
  end.

Definition Check (domain : string) (method : ValidationMethod)
  : option (list string * CheckResult) :=
  Check_rec (S (len domain)) domain method.

(** The names the walk visits when no level answers with records: the
    domain without its wildcard marker, then the parent of each level that
    is not its own public suffix (lines 18 to 21 and 83 to 86). *)
Fixpoint caaLevels_rec (depth : nat) (domain : string) : list string :=
  match depth with
  | O => []
  | S depth' =>
      let domain := stripWildcard domain in
      domain ::
        (if negb (String.eqb domain (PublicSuffix domain)) then
           match SplitN domain "." 2 with
           | _ :: parent :: _ => caaLevels_rec depth' parent
           | _ => []
           end
         else [])
  end.

Definition caaLevels (domain : string) : list string :=
  caaLevels_rec (S (len domain)) domain.

End CAAChecker.

(** ** The HTTP checker: [checkHTTP] and [translateHTTPError] *)

(** The parts of [net], [net/url] and [net/http] the checker calls. *)
Module GoNet.

(** [net.IP], a slice of bytes. *)
Definition net_IP : Type := list Z.

(** [ip.To4()]; [None] is Go's [nil]. *)
Definition To4 (ip : net_IP) : option net_IP :=
  if (length ip =? 4)%nat then Some ip
  else if (length ip =? 16)%nat && forallb (Z.eqb 0) (firstn 10 ip)
          && Z.eqb (nth 10 ip 0%Z) 255 && Z.eqb (nth 11 ip 0%Z) 255
       then Some (skipn 12 ip)
       else None.

(** [net.SplitHostPort]; [None] stands for every one of its errors. *)
Definition SplitHostPort (hostport : string) : option (string * string) :=
  match LastIndexByte hostport ":" with
  | None => None
  | Some i =>
      if HasPrefix hostport "[" then
        match IndexByte hostport "]" with
        | None => None
        | Some e =>
            if (e + 1 =? len hostport)%nat then None
            else if (e + 1 =? i)%nat then
              match IndexByte (drop 1 hostport) "[", IndexByte (drop (e + 1) hostport) "]" with
              | None, None => Some (take (e - 1) (drop 1 hostport), drop (i + 1) hostport)
              | _, _ => None
              end
            else None
        end
      else
        match IndexByte (take i hostport) ":", IndexByte hostport "[", IndexByte hostport "]" with
        | None, None, None => Some (take i hostport, drop (i + 1) hostport)
        | _, _, _ => None
        end
  end.

(** [url.URL], with the fields a redirect target is made of. *)
Record URL : Type := mkURL {
  Scheme : string;
  Host : string;
  Path : string;
  RawQuery : string
}.

(** [u.Hostname()]: [u.Host] without a valid port and without the square
    brackets of an IPv6 literal. *)
Fixpoint allDigits (s : string) : bool :=
  match s with
  | EmptyString => true
  | String c s' =>
      let n := nat_of_ascii c in
      ((48 <=? n) && (n <=? 57))%nat && allDigits s'
  end.

Definition validOptionalPort (port : string) : bool :=
  match port with
  | EmptyString => true
  | String c digits => Ascii.eqb c ":" && allDigits digits
  end.

Definition Hostname (u : URL) : string :=
  let host :=
    match LastIndexByte (Host u) ":" with
    | Some colon =>
        if validOptionalPort (drop colon (Host u)) then take colon (Host u) else Host u
    | None => Host u
    end in
  if HasPrefix host "[" && HasSuffix host "]" then take (len host - 2) (drop 1 host)
  else host.

(** [http.Request], as far as the checker sets or reads it. *)
Record Request : Type := mkRequest {
  req_URL : URL;
  Header : list (string * string)
}.

(** [http.Response]: the status code, the [Server] header, and the target
    of the redirect the client is asked to follow, when the response is
    one. *)
Record Response : Type := mkResponse {
  resp_StatusCode : Z;
  resp_Server : string;
  resp_Location : option URL
}.

(** One round trip of the transport. *)
Inductive RoundTrip : Type :=
| rtError (err : error)
| rtResponse (resp : Response).

End GoNet.
Import GoNet.

Definition httpTimeout : Z := 10.

Record httpCheckResult : Type := mkResult {
  StatusCode : Z;
  ServerHeader : string;
  IP : net_IP
}.


(** [%d] of [fmt.Sprintf] for an [int]. *)
Definition fmt_int (z : Z) : string := NilZero.string_of_int (Z.to_int z).

(** [httpCheckResult.String()] *)
Definition httpCheckResult_String (r : httpCheckResult) : string :=
  let addrType := match To4 (IP r) with Some _ => "IPv4" | None => "IPv6" end in
  "[Address Type=" ++ addrType ++ ",Response Code=" ++ fmt_int (StatusCode r)
  ++ ",Server=" ++ ServerHeader r ++ "]".

Section HTTPChecker.

(** [u.String()] and [ip.String()], the text forms of a URL and of an
    address. *)
Variable URL_String : URL -> string.
Variable IP_String : net_IP -> string.

(** The URL parser behind [http.NewRequest]. *)
Variable url_Parse : string -> URL + error.

(** The transport of the client, whose [DialContext] connects every
    request, redirected or not, to the one address under test. *)
Variable send : net_IP -> Request -> RoundTrip.

(** [internalProblem(message, level)], a diagnostic built in another file
    of the package. *)
Variable internalProblem : string -> SeverityLevel -> Problem.

(** The address [DialContext] dials for the port of [addr]. *)
Definition dialTarget (address : net_IP) (addr : string) : string :=
  let port := match SplitHostPort addr with Some (_, p) => p | None => "" end in
  match To4 address with
  | None => "[" ++ IP_String address ++ "]:" ++ port
  | Some _ => IP_String address ++ ":" ++ port
  end.

(** The [CheckRedirect] callback.  [redirErr] is the variable of the
    enclosing function the callback assigns; the second component of the
    result is its value afterwards.  [via] holds the requests made
    already, oldest first. *)
Definition reject (msg : string) : option error * string :=
  (Some (redirectError msg), msg).

Definition badPort (host : string) : option string :=
  match SplitHostPort host with
  | Some (_, p) =>
      let port := Atoi p in
      if negb (Z.eqb port 80) && negb (Z.eqb port 443) then Some p else None
  | None => None
  end.

Definition CheckRedirect (req : Request) (via : list Request) (redirErr : string)
  : option error * string :=
  if (10 <=? length via)%nat then
    reject ("Too many (" ++ fmt_d (length via) ++ ") redirects, last redirect was to: "
            ++ URL_String (req_URL req))
  else
    match badPort (Host (req_URL req)) with
    | Some p =>
        reject ("Bad port number provided when fetching " ++ URL_String (req_URL req) ++ ": " ++ p)
    | None =>
        let scheme := ToLower (Scheme (req_URL req)) in
        if negb (String.eqb scheme "http") && negb (String.eqb scheme "https") then
          reject ("Bad scheme provided when fetching " ++ URL_String (req_URL req) ++ ": " ++ scheme)
        else if HasSuffix (Hostname (req_URL req)) ".well-known" then
          reject ("It appears that a redirect was generated by your web server that is missing a trailing "
                  ++ "slash after your domain name: " ++ URL_String (req_URL req)
                  ++ ". Check your web server configuration and .htaccess for Redirect/RedirectMatch/RewriteRule.")
        else (None, redirErr)
    end.

(** [cl.Do(req)], the redirect loop of [http.Client]: send the request;
    a response that is no redirect is the result; for a redirect the
    callback is asked about the next request with the requests made so
    far, and its refusal ends the loop with the last response and the
    refusal wrapped in a [*url.Error].  [fuel] bounds the number of
    requests sent. *)
Fixpoint client_Do (fuel : nat) (address : net_IP) (reqs : list Request) (req : Request)
    (redirErr : string) : option (option Response * option error * string) :=
  match fuel with
  | O => None
  | S fuel' =>
      let reqs := reqs ++ [req] in
      match send address req with
      | rtError err =>
          Some (None, Some (urlError "Get" (URL_String (req_URL req)) err), redirErr)
      | rtResponse resp =>
          match resp_Location resp with
          | None => Some (Some resp, None, redirErr)
          | Some loc =>
              let next := mkRequest loc (Header req) in
              match CheckRedirect next reqs redirErr with
              | (Some err, redirErr') =>
                  Some (Some resp, Some (urlError "Get" (URL_String loc) err), redirErr')
              | (None, redirErr') => client_Do fuel' address reqs next redirErr'
              end
          end
      end
  end.

Definition badRedirect (domain : string) (err : error) : Problem :=
  {| Name := "BadRedirect";
     Explanation :=
       "Sending an ACME HTTP validation request to " ++ domain ++ " results in an unacceptable redirect. "
       ++ "This is most likely a misconfiguration of your web server or your web application.";
     Detail := Error err;
     Severity := SeverityError |}.

Definition httpServerMisconfiguration (domain detail : string) : Problem :=
  {| Name := "WebserverMisconfiguration";
     Explanation := domain ++ "'s webserver may be misconfigured.";
     Detail := detail;
     Severity := SeverityError |}.

Definition aaaaNotWorking (domain ipv6Address : string) (err : error) : Problem :=
  {| Name := "AAAANotWorking";
     Explanation :=
       domain ++ " has an AAAA (IPv6) record (" ++ ipv6Address
       ++ ") but a test ACME validation request over port 80 has revealed problems. "
       ++ "Let's Encrypt will prefer to use AAAA records, if present, and will not fall back to IPv4 records. "
       ++ "You should either ensure that validation requests succeed over IPv6, or remove its AAAA record.";
     Detail := Error err;
     Severity := SeverityError |}.

Definition aNotWorking (domain addr : string) (err : error) : Problem :=
  {| Name := "ANotWorking";
     Explanation :=
       domain ++ " has an A (IPv4) record (" ++ addr
       ++ ") but a test ACME validation request over port 80 has revealed problems.";
     Detail := Error err;
     Severity := SeverityError |}.

Definition translateHTTPError (domain : string) (address : net_IP) (e : error) : Problem :=
  match e with
  | redirectError _ => badRedirect domain e
  | _ =>
      if HasSuffix (Error e) "http: server gave HTTP response to HTTPS client" then
        httpServerMisconfiguration domain
          ("Web server is serving the wrong protocol on the wrong port: " ++ Error e
           ++ ". This may be due to a previous HTTP redirect rather than a webserver misconfiguration.")
      else
        match To4 address with
        | None => aaaaNotWorking domain (IP_String address) e
        | Some _ => aNotWorking domain (IP_String address) e
        end
  end.

(** Lines 111 to 125: what [checkHTTP] makes of the two results of
    [cl.Do] and of the variable the callback assigned. *)
Definition finishHTTP (domain : string) (address : net_IP) (checkRes : httpCheckResult)
    (resp : option Response) (err : option error) (redirErr : string)
  : httpCheckResult * Problem :=
  let checkRes :=
    match resp with
    | Some r => mkResult (resp_StatusCode r) (resp_Server r) (IP checkRes)
    | None => checkRes
    end in
  match err with
  | Some e =>
      let e := if negb (String.eqb redirErr "") then redirectError redirErr else e in
      (checkRes, translateHTTPError domain address e)
  | None => (checkRes, noProblem)
  end.

Definition firstURL (domain : string) : string :=
  "http://" ++ domain ++ "/.well-known/acme-challenge/letsdebug-test".

Definition firstHeader : list (string * string) :=
  [("Accept", "*/*"); ("User-Agent", "github.com/alexzorin/letsdebug")].

(** [checkHTTP]; [None] only when [fuel] requests were not enough for the
    client to finish, which ten always are ([checkHTTP_total] below). *)
Definition checkHTTP (fuel : nat) (domain : string) (address : net_IP)
  : option (httpCheckResult * Problem) :=
  let checkRes := mkResult 0 "" address in
  match url_Parse (firstURL domain) with
  | inr err =>
      Some (checkRes,
            internalProblem ("Failed to construct validation request: " ++ Error err) SeverityError)
  | inl u =>
      let req := mkRequest u firstHeader in
      match client_Do fuel address [] req "" with
      | None => None
      | Some (resp, err, redirErr) =>
          Some (finishHTTP domain address checkRes resp err redirErr)
      end
  end.

End HTTPChecker.

(** ** Vocabulary of the statements *)

Open Scope string_scope.

(** Every byte of [s] is in the cutset. *)
Definition onlyFrom (cutset s : string) : Prop :=
  forall c, In c (list_ascii_of_string s) -> inCutset c cutset = true.

(** [s] neither starts nor ends with a byte of the cutset. *)
Definition endsFree (cutset s : string) : Prop :=
  (forall c s', s = String c s' -> inCutset c cutset = false) /\
  (forall s' c, s = s' ++ String c "" -> inCutset c cutset = false).

(** [field] is the text of [value] before its first [sep], or the whole of
    [value] when there is none. *)
Definition fieldBefore (sep : ascii) (value field : string) : Prop :=
  ~ In sep (list_ascii_of_string field) /\
  (value = field \/ exists rest, value = field ++ String sep rest).

(** The CAA records of an answer, and those carrying a given tag, in the
    order of the answer. *)
Definition caaRecords (rrs : list RR) : list CAA :=
  flat_map (fun rr => match rr with RR_CAA c => [c] | RR_other _ => [] end) rrs.

Definition withTag (tag : string) (rrs : list RR) : list CAA :=
  filter (fun c => String.eqb (Tag c) tag) (caaRecords rrs).

(** A tag the checker does not know. *)
Definition unknownTag (c : CAA) : bool :=
  negb (String.eqb (Tag c) "issue") && negb (String.eqb (Tag c) "issuewild")
  && negb (String.eqb (Tag c) "iodef").

(** The record set that decides issuance: for a wildcard name the
    [issuewild] records when there are any, the [issue] records otherwise. *)
Definition applicableSet (wildcard : bool) (rrs : list RR) : list CAA :=
  if wildcard then
    match withTag "issuewild" rrs with
    | [] => withTag "issue" rrs
    | wild => wild
    end
  else withTag "issue" rrs.

(** A redirect target against which the policy has nothing but, possibly,
    the number of requests made: no port other than 80 and 443, the scheme
    [http] or [https], a hostname that does not end in [.well-known]. *)
Definition schemeAccepted (u : URL) : bool :=
  String.eqb (ToLower (Scheme u)) "http" || String.eqb (ToLower (Scheme u)) "https".

Definition portAccepted (u : URL) : bool :=
  match badPort (Host u) with Some _ => false | None => true end.

Definition hopAccepted (u : URL) : bool :=
  portAccepted u && schemeAccepted u && negb (HasSuffix (Hostname u) ".well-known").

(** The message of the check for a dropped slash before [.well-known]. *)
Definition trailingSlashMessage (url : string) : string :=
  "It appears that a redirect was generated by your web server that is missing a trailing "
  ++ "slash after your domain name: " ++ url
  ++ ". Check your web server configuration and .htaccess for Redirect/RedirectMatch/RewriteRule.".

Definition tooManyMessage (n : nat) (url : string) : string :=
  "Too many (" ++ fmt_d n ++ ") redirects, last redirect was to: " ++ url.

(** A chain of redirects as the server plays it: the request for [u] is
    answered by the first response, which redirects to the first target,
    the request for that target by the second response, and so on. *)
Fixpoint redirects (send : Request -> RoundTrip) (header : list (string * string))
    (u : URL) (hops : list (Response * URL)) : Prop :=
  match hops with
  | [] => True
  | (resp, target) :: hops' =>
      send (mkRequest u header) = rtResponse resp /\
      resp_Location resp = Some target /\
      redirects send header target hops'
  end.

(** The URL a chain of redirects ends at. *)
Definition chainEnd (u : URL) (hops : list (Response * URL)) : URL :=
  last (map snd hops) u.

(** ** Instances used in the examples of the CAA checker *)

(** The public suffix under the rule [*] alone: the last label. *)
Definition lastLabel (domain : string) : string :=
  match LastIndexByte domain "." with
  | Some i => drop (S i) domain
  | None => domain
  end.

Definition exampleLookupFailed (name rrType : string) (err : error) : Problem :=
  mkProblem "DNSLookupFailed" (name ++ "/" ++ rrType) (Error err) SeverityFatal.

Definition exampleCAAString (c : CAA) : string :=
  Hdr c ++ " CAA " ++ fmt_d (Z.to_nat (Flag c)) ++ " " ++ Tag c ++ " " ++ Value c.

(** A resolver that fails on every name. *)
Definition failingLookup (name : string) : list RR * option error :=
  ([], Some (errorString "SERVFAIL")).

(** A resolver with no CAA record anywhere. *)
Definition emptyLookup (name : string) : list RR * option error := ([], None).

(** [example.com] publishes one record with an unknown tag and the flags
    byte 129. *)
Definition futureRecord : CAA := mkCAA "example.com." 129 "future" "none".

Definition criticalLookup (name : string) : list RR * option error :=
  if String.eqb name "example.com" then ([RR_CAA futureRecord], None) else ([], None).

(** [example.com] allows another CA for wildcard names and Let's Encrypt for
    the others. *)
Definition wildRecord : CAA := mkCAA "example.com." 0 "issuewild" "ca.example.net".

Definition issueRecord : CAA :=
  mkCAA "example.com." 0 "issue" "letsencrypt.org; validationmethods=http-01".

Definition policyLookup (name : string) : list RR * option error :=
  if String.eqb name "example.com" then ([RR_CAA issueRecord; RR_CAA wildRecord], None)
  else ([], None).

(** ** Instances used in the examples of the HTTP checker *)

Definition plainURLString (u : URL) : string := Scheme u ++ "://" ++ Host u ++ Path u.

Definition exampleIPString (ip : net_IP) : string := "192.0.2.1".

Definition exampleAddress : net_IP := [192; 0; 2; 1]%Z.

Definition exampleParse (s : string) : URL + error :=
  match SplitN s "://" 2 with
  | scheme :: rest :: _ =>
      match Index rest "/" with
      | Some i => inl (mkURL scheme (take i rest) (drop i rest) "")
      | None => inl (mkURL scheme rest "" "")
      end
  | _ => inr (errorString "missing protocol scheme")
  end.

Definition exampleInternal (message : string) (level : SeverityLevel) : Problem :=
  mkProblem "InternalProblem" "" message level.

Definition challengePath : string := "/.well-known/acme-challenge/letsdebug-test".

Fixpoint xs (k : nat) : string :=
  match k with
  | O => EmptyString
  | S k' => String "x" (xs k')
  end.

(** The [k]-th page of the example site. *)
Definition hopURL (k : nat) : URL := mkURL "http" "example.com" (challengePath ++ xs k) "".

(** A site that redirects the challenge URL to its first page, every page
    to the next, and answers page [n] with 200: a chain of exactly [n]
    redirects. *)
Definition redirectingServer (n : nat) (address : net_IP) (req : Request) : RoundTrip :=
  let k := len (Path (req_URL req)) - len challengePath in
  if (k <? n)%nat then rtResponse (mkResponse 302 "nginx" (Some (hopURL (S k))))
  else rtResponse (mkResponse 200 "nginx" None).

(** The chain of the first [n] redirects of that site, from page [k] on. *)
Fixpoint exampleHops (k n : nat) : list (Response * URL) :=
  match n with
  | O => []
  | S n' => (mkResponse 302 "nginx" (Some (hopURL (S k))), hopURL (S k)) :: exampleHops (S k) n'
  end.

(** A site whose answer to the challenge URL drops the slash after the host
    and names a port that is neither 80 nor 443. *)
Definition droppedSlashURL : URL :=
  mkURL "http" "example.com.well-known:8080" "/acme-challenge/letsdebug-test" "".

Definition droppedSlashServer (address : net_IP) (req : Request) : RoundTrip :=
  rtResponse (mkResponse 301 "Apache" (Some droppedSlashURL)).

(** The same mistake without a port. *)
Definition slashlessURL : URL :=
  mkURL "http" "example.com.well-known" "/acme-challenge/letsdebug-test" "".

Definition slashlessServer (address : net_IP) (req : Request) : RoundTrip :=
  rtResponse (mkResponse 301 "Apache" (Some slashlessURL)).

(** ** Vocabulary of the further properties *)

(** The records of an answer that can bear on the findings: [issue] and
    [issuewild] records, and records with an unknown tag and the flags
    byte 1. *)
Definition relevantRR (rr : RR) : bool :=
  match rr with
  | RR_CAA c =>
      String.eqb (Tag c) "issue" || String.eqb (Tag c) "issuewild"
      || (unknownTag c && Z.eqb (Flag c) 1)
  | RR_other _ => false
  end.

(** [s] is a suffix of [t]. *)
Definition suffixOf (s t : string) : Prop := exists before, t = before ++ s.

(** A host name or port without colon and square brackets. *)
Definition plainName (s : string) : Prop :=
  ~ In ":"%char (list_ascii_of_string s) /\
  ~ In "["%char (list_ascii_of_string s) /\
  ~ In "]"%char (list_ascii_of_string s).

(** What a finding of the CAA checker looks like: the diagnostic of a failed
    lookup, or one of the two CAA diagnostics. *)
Definition caaFinding (dnsLookupFailed : string -> string -> error -> Problem)
    (p : Problem) : Prop :=
  (exists name e, p = dnsLookupFailed name "CAA" e) \/
  (Severity p = SeverityFatal /\
   (Name p = "CaaCriticalUnknown" \/ Name p = "CaaIssuanceNotAllowed")).


(** A zone with a critical record of an unknown tag (flags byte 1), an
    [iodef] record and a record of another type besides. *)
Definition tbsRecord : CAA := mkCAA "example.org." 1 "tbs" "Unknown".

Definition iodefRecord : CAA := mkCAA "example.org." 0 "iodef" "mailto:security@example.org".

Definition mixedLookup (name : string) : list RR * option error :=
  if String.eqb name "example.org"
  then ([RR_other "example.org. CNAME host.example.net."; RR_CAA iodefRecord; RR_CAA tbsRecord], None)
  else ([], None).

(** * Properties *)

(** ** Strings *)

Section StringFacts.

Lemma append_assoc (a b c : string) : (a ++ b) ++ c = a ++ (b ++ c).
Proof. induction a as [|x a IH]; simpl; [reflexivity | now rewrite IH]. Qed.

Lemma len_append (a b : string) : len (a ++ b) = len a + len b.
Proof. unfold len. induction a as [|x a IH]; simpl; [reflexivity | now rewrite IH]. Qed.

Lemma chars_append (a b : string) :
  list_ascii_of_string (a ++ b) = (list_ascii_of_string a ++ list_ascii_of_string b)%list.
Proof. induction a as [|x a IH]; simpl; [reflexivity | now rewrite IH]. Qed.

Lemma len_drop (n : nat) (s : string) : len (drop n s) = len s - n.
Proof.
  unfold len. revert s. induction n as [|n IH]; intros [|c s]; simpl; auto.
Qed.

Lemma prefix_split (p s : string) :
  String.prefix p s = true -> s = p ++ drop (len p) s.
Proof.
  revert s. induction p as [|c p IH]; intros s H; [reflexivity|].
  destruct s as [|d s]; simpl in H; [discriminate|].
  destruct (ascii_dec c d) as [Hcd|]; [subst d|discriminate].
  simpl. f_equal. now apply IH.
Qed.

(** [Index] finds the first instance of the separator. *)
Lemma Index_bound (s sep : string) (m : nat) :
  Index s sep = Some m -> m + len sep <= len s /\ s = take m s ++ sep ++ drop (m + len sep) s.
Proof.
  revert m. induction s as [|c s IH]; intros m.
  - destruct sep; simpl; [|discriminate].
    intros H. injection H as <-. simpl. auto.
  - cbn [Index]. destruct (String.prefix sep (String c s)) eqn:Hp.
    + intros H. injection H as <-. apply prefix_split in Hp.
      split.
      * pose proof (f_equal len Hp) as Hl. rewrite len_append in Hl. lia.
      * exact Hp.
    + destruct (Index s sep) as [k|] eqn:Hk; simpl; [|discriminate].
      intros H. injection H as <-. destruct (IH k eq_refl) as [Hle Heq].
      split; [unfold len in *; simpl; lia|].
      simpl. f_equal. exact Heq.
Qed.

Lemma prefix_empty (s : string) : String.prefix "" s = true.
Proof. now destruct s. Qed.

Lemma Index_byte_cons (d c : ascii) (s : string) :
  Index (String d s) (String c "") =
  if Ascii.eqb d c then Some 0 else option_map S (Index s (String c "")).
Proof.
  cbn [Index String.prefix]. destruct (ascii_dec c d) as [Hcd|Hcd].
  - subst d. now rewrite prefix_empty, Ascii.eqb_refl.
  - destruct (Ascii.eqb d c) eqn:He; [|reflexivity].
    apply Ascii.eqb_eq in He. congruence.
Qed.

Lemma Index_byte_none (s : string) (c : ascii) :
  Index s (String c "") = None -> ~ In c (list_ascii_of_string s).
Proof.
  induction s as [|d s IH]; [simpl; auto|].
  rewrite Index_byte_cons. destruct (Ascii.eqb d c) eqn:He; [discriminate|].
  apply Ascii.eqb_neq in He.
  destruct (Index s (String c "")); simpl; [discriminate|].
  intros _ [Heq|Hin]; [congruence | now apply IH].
Qed.

Lemma Index_byte_some (s : string) (c : ascii) (m : nat) :
  Index s (String c "") = Some m -> ~ In c (list_ascii_of_string (take m s)).
Proof.
  revert m. induction s as [|d s IH]; intros m; [simpl; discriminate|].
  rewrite Index_byte_cons. destruct (Ascii.eqb d c) eqn:He.
  - intros H. injection H as <-. simpl. auto.
  - apply Ascii.eqb_neq in He.
    destruct (Index s (String c "")) as [k|] eqn:Hk; simpl; [|discriminate].
    intros H. injection H as <-. simpl.
    intros [Heq|Hin]; [congruence | now apply (IH k)].
Qed.

(** The parent of a domain is shorter than the domain. *)
Lemma SplitN_parent_shorter (domain sep a parent : string) (rest : list string) :
  SplitN domain sep 2 = a :: parent :: rest -> len parent + len sep <= len domain.
Proof.
  simpl. destruct (Index domain sep) as [m|] eqn:Hm; [|discriminate].
  intros [= _ <- _]. apply Index_bound in Hm. rewrite len_drop. lia.
Qed.

End StringFacts.

(** ** [extractIssuerDomain] *)

Section Trimming.

Variable cutset : string.

Lemma TrimRight_spec (s : string) :
  exists trail,
    s = TrimRight s cutset ++ trail /\ onlyFrom cutset trail /\
    (forall s' c, TrimRight s cutset = s' ++ String c "" -> inCutset c cutset = false).
Proof.
  induction s as [|c s (trail & Heq & Htrail & Hend)].
  - exists "". repeat split; [intros c [] | intros [|? ?] c; discriminate].
  - simpl. destruct (TrimRight s cutset) as [|d t] eqn:Ht.
    + destruct (inCutset c cutset) eqn:Hc.
      * exists (String c trail). simpl in Heq. subst s. repeat split.
        -- intros x [<-|Hin]; [exact Hc | now apply Htrail].
        -- intros [|? ?] x; discriminate.
      * exists trail. simpl in *. subst s. repeat split; [exact Htrail|].
        intros [|y s'] x; simpl; intros H.
        -- injection H as <-. exact Hc.
        -- injection H as _ H'. destruct s'; discriminate.
    + exists trail. simpl. rewrite Heq at 1. repeat split; [exact Htrail|].
      intros [|y s'] x; simpl; intros H; injection H as _ H'; [discriminate|].
      now apply (Hend s').
Qed.

Lemma TrimLeft_spec (s : string) :
  exists lead,
    s = lead ++ TrimLeft s cutset /\ onlyFrom cutset lead /\
    (forall c s', TrimLeft s cutset = String c s' -> inCutset c cutset = false).
Proof.
  induction s as [|c s (lead & Heq & Hlead & Hstart)].
  - exists "". repeat split; [intros c [] | discriminate].
  - simpl. destruct (inCutset c cutset) eqn:Hc.
    + exists (String c lead). simpl. rewrite <- Heq. repeat split; [|exact Hstart].
      intros x [<-|Hin]; [exact Hc | now apply Hlead].
    + exists "". repeat split; [intros x [] |].
      intros x s' H. injection H as <- _. exact Hc.
Qed.

Lemma Trim_spec (s : string) :
  exists lead trail,
    s = lead ++ Trim s cutset ++ trail /\
    onlyFrom cutset lead /\ onlyFrom cutset trail /\ endsFree cutset (Trim s cutset).
Proof.
  unfold Trim.
  destruct (TrimRight_spec s) as (trail & Hr & Htrail & Hend).
  destruct (TrimLeft_spec (TrimRight s cutset)) as (lead & Hl & Hlead & Hstart).
  exists lead, trail. repeat split; auto.
  - rewrite <- append_assoc, <- Hl. exact Hr.
  - intros s' c H. apply (Hend (lead ++ s')).
    rewrite Hl at 1. rewrite H. now rewrite append_assoc.
Qed.

End Trimming.

Lemma SplitN_two_field (value : string) (sep : ascii) :
  exists field rest,
    SplitN value (String sep "") 2 = field :: rest /\ fieldBefore sep value field /\
    (Index value (String sep "") = None -> field = value).
Proof.
  simpl. destruct (Index value (String sep "")) as [m|] eqn:Hm.
  - exists (take m value), [drop (m + len (String sep "")) value].
    split; [reflexivity|]. split; [|discriminate].
    split; [now apply Index_byte_some|].
    right. exists (drop (m + 1) value).
    apply Index_bound in Hm. exact (proj2 Hm).
  - exists value, []. split; [reflexivity|]. split; [|reflexivity].
    split; [now apply Index_byte_none | now left].
Qed.

(** C7. [extractIssuerDomain] returns the text of the value before its first
    semicolon (the whole value when it has none), without the spaces and
    tabs around it: that text is the result with only spaces and tabs before
    and after it, and the result neither starts nor ends with one.  On
    ["letsencrypt.org; validationmethods=http-01"] it returns
    ["letsencrypt.org"], and on a value without semicolon the whole value
    trimmed. *)
Theorem extractIssuerDomain_field_trimmed :
  (forall value : string,
     exists field lead trail,
       fieldBefore ";" value field /\
       field = lead ++ extractIssuerDomain value ++ trail /\
       onlyFrom spaceTab lead /\ onlyFrom spaceTab trail /\
       endsFree spaceTab (extractIssuerDomain value)) /\
  extractIssuerDomain "letsencrypt.org; validationmethods=http-01" = "letsencrypt.org" /\
  (forall value : string,
     ~ In ";"%char (list_ascii_of_string value) ->
     extractIssuerDomain value = Trim value spaceTab).
Proof.
  split; [|split].
  - intros value. unfold extractIssuerDomain.
    destruct (SplitN_two_field value ";") as (field & rest & -> & Hfield & _).
    destruct (Trim_spec spaceTab field) as (lead & trail & Heq & Hlead & Htrail & Hends).
    now exists field, lead, trail.
  - reflexivity.
  - intros value Hno. unfold extractIssuerDomain.
    destruct (SplitN_two_field value ";") as (field & rest & -> & [Hfree Hcut] & _).
    destruct Hcut as [->|[tail ->]]; [reflexivity|].
    exfalso. apply Hno. rewrite chars_append. apply in_or_app. right. now left.
Qed.

(** ** The CAA checker *)

Section CAAProperties.

Variable ValidationMethod : Type.
Variable Lookup : string -> list RR * option error.
Variable PublicSuffix : string -> string.
Variable dnsLookupFailed : string -> string -> error -> Problem.
Variable CAA_String : CAA -> string.

Local Abbreviation body := (Check_body ValidationMethod Lookup PublicSuffix dnsLookupFailed CAA_String).
Local Abbreviation check_rec := (Check_rec ValidationMethod Lookup PublicSuffix dnsLookupFailed CAA_String).
Local Abbreviation check := (Check ValidationMethod Lookup PublicSuffix dnsLookupFailed CAA_String).
Local Abbreviation records := (checkRecords CAA_String).
Local Abbreviation levels := (caaLevels PublicSuffix).

Lemma stripWildcard_len (domain : string) : len (stripWildcard domain) <= len domain.
Proof.
  unfold stripWildcard. destruct (isWildcard domain); [|lia].
  rewrite len_drop. lia.
Qed.

(** The body calls [self] on names shorter than the domain only. *)
Lemma Check_body_ext (f g : string -> ValidationMethod -> option (list string * CheckResult))
    (domain : string) (method : ValidationMethod) :
  (forall parent, len parent < len domain -> f parent method = g parent method) ->
  body f domain method = body g domain method.
Proof.
  intros Hfg. unfold Check_body.
  destruct (Lookup (stripWildcard domain)) as [rrs [err|]]; [reflexivity|].
  destruct (0 <? length rrs)%nat; [reflexivity|].
  destruct (negb (stripWildcard domain =? PublicSuffix (stripWildcard domain))); [|reflexivity].
  destruct (SplitN (stripWildcard domain) "." 2) as [|a [|parent rest]] eqn:Hsplit; try reflexivity.
  rewrite Hfg; [reflexivity|].
  apply SplitN_parent_shorter in Hsplit.
  pose proof (stripWildcard_len domain). change (len ".") with 1 in Hsplit. lia.
Qed.

Lemma Check_rec_stable (n m : nat) (domain : string) (method : ValidationMethod) :
  len domain < n -> len domain < m -> check_rec n domain method = check_rec m domain method.
Proof.
  revert m domain. induction n as [|n IH]; intros m domain Hn Hm; [lia|].
  destruct m as [|m]; [lia|]. simpl.
  apply Check_body_ext. intros parent Hlt. apply IH; lia.
Qed.

(** The defining equation of [Check]. *)
Lemma Check_unfold (domain : string) (method : ValidationMethod) :
  check domain method = body check domain method.
Proof.
  unfold Check at 1. simpl.
  apply Check_body_ext. intros parent Hlt.
  unfold Check. apply Check_rec_stable; lia.
Qed.

(** [Check] always comes to an end, and the first name it looks up is the
    domain without its wildcard marker. *)
Lemma Check_total (domain : string) (method : ValidationMethod) :
  exists queried res, check domain method = Some (stripWildcard domain :: queried, res).
Proof.
  remember (len domain) as n eqn:Hn. revert domain Hn.
  induction n as [n IH] using lt_wf_ind. intros domain ->.
  rewrite Check_unfold. unfold Check_body.
  destruct (Lookup (stripWildcard domain)) as [rrs [err|]]; [eauto|].
  destruct (0 <? length rrs)%nat; [eauto|].
  destruct (negb (stripWildcard domain =? PublicSuffix (stripWildcard domain))); [|eauto].
  destruct (SplitN (stripWildcard domain) "." 2) as [|a [|parent rest]] eqn:Hsplit; eauto.
  apply SplitN_parent_shorter in Hsplit. change (len ".") with 1 in Hsplit.
  pose proof (stripWildcard_len domain).
  destruct (IH (len parent) ltac:(lia) parent eq_refl) as (queried & res & ->).
  destruct res as [probs [err|]|]; eauto.
Qed.

(** When the lookup succeeds with records, the level is terminal. *)
Lemma Check_terminal (domain : string) (method : ValidationMethod) (rrs : list RR) :
  Lookup (stripWildcard domain) = (rrs, None) -> rrs <> [] ->
  check domain method =
  Some ([stripWildcard domain],
        Returned (records (stripWildcard domain) (isWildcard domain) rrs) None).
Proof.
  intros Hl Hne. rewrite Check_unfold. unfold Check_body. rewrite Hl.
  destruct rrs; [congruence | reflexivity].
Qed.

(** The classification loop, as three filters. *)
Lemma classify_fold (rrs : list RR) (acc : caaSets) :
  fold_left classifyStep rrs acc =
  mkSets (issue acc ++ withTag "issue" rrs)
         (issuewild acc ++ withTag "issuewild" rrs)
         (criticalUnknown acc
            ++ filter (fun c => unknownTag c && Z.eqb (Flag c) 1) (caaRecords rrs)).
Proof.
  revert acc. induction rrs as [|rr rrs IH]; intros [i w u]; simpl.
  - now rewrite !app_nil_r.
  - rewrite IH. destruct rr as [c|text]; simpl; [|reflexivity].
    unfold withTag, unknownTag. simpl.
    destruct (Tag c =? "issue") eqn:Hi.
    + apply String.eqb_eq in Hi. rewrite Hi. simpl. now rewrite <- app_assoc.
    + destruct (Tag c =? "issuewild") eqn:Hw.
      * apply String.eqb_eq in Hw. rewrite Hw. simpl. now rewrite <- app_assoc.
      * destruct (Tag c =? "iodef") eqn:Ho; simpl; [reflexivity|].
        destruct (Flag c =? 1)%Z; simpl; [now rewrite <- app_assoc | reflexivity].
Qed.

Lemma classify_sets (rrs : list RR) :
  classify rrs =
  mkSets (withTag "issue" rrs) (withTag "issuewild" rrs)
         (filter (fun c => unknownTag c && Z.eqb (Flag c) 1) (caaRecords rrs)).
Proof. unfold classify. now rewrite classify_fold. Qed.

Lemma existsb_authorizes (l : list CAA) :
  existsb authorizes l = true <->
  exists r, In r l /\ extractIssuerDomain (Value r) = "letsencrypt.org".
Proof.
  rewrite existsb_exists. unfold authorizes.
  split; intros (r & Hin & Hr); exists r; split; auto; now apply String.eqb_eq.
Qed.

(** The findings of a terminal level with no unrecognized critical
    record, in the words of the specification. *)
Lemma checkRecords_policy (domain : string) (wildcard : bool) (rrs : list RR) :
  criticalUnknown (classify rrs) = [] ->
  records domain wildcard rrs =
  if negb wildcard && (length (withTag "issue" rrs) =? 0)%nat then []
  else if existsb authorizes (applicableSet wildcard rrs) then []
       else [caaIssuanceNotAllowed CAA_String domain wildcard (applicableSet wildcard rrs)].
Proof.
  intros Hcrit. unfold checkRecords. rewrite Hcrit. simpl.
  rewrite classify_sets. simpl. unfold applicableSet.
  destruct wildcard; simpl.
  - rewrite Bool.andb_false_r.
    destruct (withTag "issuewild" rrs); reflexivity.
  - rewrite Bool.andb_true_r.
    destruct (length (withTag "issue" rrs) =? 0)%nat; reflexivity.
Qed.

(** Which records the loop collects as unrecognized critical directives:
    those with an unknown tag whose flags byte is exactly 1. *)
Lemma criticalUnknown_collected (rrs : list RR) (c : CAA) :
  In c (criticalUnknown (classify rrs)) <->
  In (RR_CAA c) rrs /\ unknownTag c = true /\ Flag c = 1%Z.
Proof.
  rewrite classify_sets. simpl. rewrite filter_In. unfold caaRecords.
  rewrite in_flat_map, Bool.andb_true_iff, Z.eqb_eq. split.
  - intros [(rr & Hin & Hc) [Hu Hf]]. destruct rr as [c'|text]; simpl in Hc; [|tauto].
    destruct Hc as [->|[]]. auto.
  - intros (Hin & Hu & Hf). split; [|auto].
    exists (RR_CAA c). split; [exact Hin | now left].
Qed.

(** Once a record is collected as unrecognized critical, the level reports
    that and nothing else, whatever [issue] and [issuewild] records say. *)
Lemma collected_critical_blocks (domain : string) (method : ValidationMethod) (rrs : list RR) :
  Lookup (stripWildcard domain) = (rrs, None) ->
  criticalUnknown (classify rrs) <> [] ->
  check domain method =
  Some ([stripWildcard domain],
        Returned [caaCriticalUnknown CAA_String (stripWildcard domain) (isWildcard domain)
                    (criticalUnknown (classify rrs))] None).
Proof.
  intros Hl Hcrit.
  assert (Hne : rrs <> []) by (intros ->; now apply Hcrit).
  rewrite (Check_terminal _ _ _ Hl Hne). unfold checkRecords.
  destruct (criticalUnknown (classify rrs)); [congruence | reflexivity].
Qed.

(** No call of [Check] returns a non-nil error. *)
Lemma Check_error_nil (domain : string) (method : ValidationMethod)
    (queried : list string) (probs : list Problem) (err : option error) :
  check domain method = Some (queried, Returned probs err) -> err = None.
Proof.
  remember (len domain) as n eqn:Hn. revert domain Hn queried probs err.
  induction n as [n IH] using lt_wf_ind. intros domain -> queried probs err.
  rewrite Check_unfold. unfold Check_body.
  destruct (Lookup (stripWildcard domain)) as [rrs [e|]]; [congruence|].
  destruct (0 <? length rrs)%nat; [congruence|].
  destruct (negb (stripWildcard domain =? PublicSuffix (stripWildcard domain))); [|congruence].
  destruct (SplitN (stripWildcard domain) "." 2) as [|a [|parent rest]] eqn:Hsplit;
    try congruence.
  apply SplitN_parent_shorter in Hsplit. change (len ".") with 1 in Hsplit.
  pose proof (stripWildcard_len domain).
  destruct (check parent method) as [[qs [ps [e|]|]]|] eqn:Hp; try congruence.
  apply (IH (len parent) ltac:(lia) parent eq_refl) in Hp. discriminate.
Qed.

(** A failed lookup is the last lookup of a call. *)
Lemma Check_stops_at_failure (domain : string) (method : ValidationMethod)
    (queried : list string) (res : CheckResult) :
  check domain method = Some (queried, res) ->
  forall before name after,
    queried = (before ++ name :: after)%list -> snd (Lookup name) <> None -> after = [].
Proof.
  remember (len domain) as n eqn:Hn. revert domain Hn queried res.
  induction n as [n IH] using lt_wf_ind. intros domain -> queried res.
  rewrite Check_unfold. unfold Check_body.
  assert (Hone : forall r : CheckResult,
             Some ([stripWildcard domain], r) = Some (queried, res) ->
             snd (Lookup (stripWildcard domain)) = None ->
             forall before name after,
               queried = (before ++ name :: after)%list -> snd (Lookup name) <> None -> after = []).
  { intros r H Hok before name after Hq Hfail. injection H as <- _.
    destruct before as [|x [|y before]]; simpl in Hq; try discriminate.
    injection Hq as <- <-. reflexivity. }
  destruct (Lookup (stripWildcard domain)) as [rrs [e|]] eqn:Hl.
  - intros H before name after Hq _. injection H as <- _.
    destruct before as [|x [|y before]]; simpl in Hq; try discriminate.
    now injection Hq as _ <-.
  - destruct (0 <? length rrs)%nat; [intros H; now apply (Hone _ H)|].
    destruct (negb (stripWildcard domain =? PublicSuffix (stripWildcard domain)));
      [|intros H; now apply (Hone _ H)].
    destruct (SplitN (stripWildcard domain) "." 2) as [|a [|parent rest]] eqn:Hsplit;
      try (intros H; now apply (Hone _ H)).
    apply SplitN_parent_shorter in Hsplit. change (len ".") with 1 in Hsplit.
    pose proof (stripWildcard_len domain).
    destruct (check parent method) as [[qs r]|] eqn:Hp; [|discriminate].
    specialize (IH (len parent) ltac:(lia) parent eq_refl qs r Hp).
    intros Hres.
    assert (Hq' : queried = stripWildcard domain :: qs)
      by (destruct r as [ps [e|]|]; congruence).
    intros before name after Hq Hfail. rewrite Hq' in Hq.
    destruct before as [|x before]; simpl in Hq.
    + injection Hq as <- _. rewrite Hl in Hfail. now elim Hfail.
    + injection Hq as _ Hq. now apply (IH before name after).
Qed.

(** The validation method plays no part in the check. *)
Lemma Check_rec_method (n : nat) (domain : string) (m1 m2 : ValidationMethod) :
  check_rec n domain m1 = check_rec n domain m2.
Proof.
  revert domain. induction n as [|n IH]; intros domain; [reflexivity|].
  simpl. unfold Check_body.
  destruct (Lookup (stripWildcard domain)) as [rrs [e|]]; [reflexivity|].
  destruct (0 <? length rrs)%nat; [reflexivity|].
  destruct (negb (stripWildcard domain =? PublicSuffix (stripWildcard domain))); [|reflexivity].
  destruct (SplitN (stripWildcard domain) "." 2) as [|a [|parent rest]]; try reflexivity.
  now rewrite (IH parent).
Qed.

(** C4, as amended.  A failed lookup, whatever the failure, is not
    propagated as an error: [Check] returns the single finding
    [dnsLookupFailed] for the name and a nil error, and no other name is
    looked up.  More generally every call of [Check] ends, never with a
    non-nil error, and a failed lookup is the last lookup of the walk, so
    the parent of a name whose lookup failed is not queried. *)
Theorem lookup_failure_is_finding (domain : string) (method : ValidationMethod) :
  (exists queried res,
      check domain method = Some (queried, res) /\
      (forall probs err, res = Returned probs err -> err = None) /\
      (forall before name after,
          queried = (before ++ name :: after)%list -> snd (Lookup name) <> None ->
          after = [])) /\
  (forall e,
      snd (Lookup (stripWildcard domain)) = Some e ->
      check domain method =
      Some ([stripWildcard domain],
            Returned [dnsLookupFailed (stripWildcard domain) "CAA" e] None)).
Proof.
  split.
  - destruct (Check_total domain method) as (queried & res & Hc).
    exists (stripWildcard domain :: queried), res. split; [exact Hc|]. split.
    + intros probs err ->. exact (Check_error_nil _ _ _ _ _ Hc).
    + exact (Check_stops_at_failure _ _ _ _ Hc).
  - intros e He. rewrite Check_unfold. unfold Check_body.
    destruct (Lookup (stripWildcard domain)) as [rrs err]. simpl in He. now subst err.
Qed.


(** C10.  The issuer is fixed in the code: [Check] takes no issuer domain,
    what it takes besides the name (the validation method) does not change
    its result, a record authorizes exactly when its issuer domain is the
    text "letsencrypt.org", and a level that is decided by its applicable
    set passes exactly when one record of that set names that text. *)
Theorem issuer_is_letsencrypt (domain : string) (m1 m2 : ValidationMethod) :
  check domain m1 = check domain m2 /\
  (forall r, authorizes r = true <-> extractIssuerDomain (Value r) = "letsencrypt.org") /\
  (forall rrs,
      Lookup (stripWildcard domain) = (rrs, None) -> rrs <> [] ->
      criticalUnknown (classify rrs) = [] ->
      isWildcard domain = true \/ withTag "issue" rrs <> [] ->
      (check domain m1 = Some ([stripWildcard domain], Returned [] None) <->
       exists r, In r (applicableSet (isWildcard domain) rrs) /\
                 extractIssuerDomain (Value r) = "letsencrypt.org")).
Proof.
  split; [apply Check_rec_method|]. split.
  - intros r. unfold authorizes. apply String.eqb_eq.
  - intros rrs Hl Hne Hcrit Hsel.
    rewrite (Check_terminal _ _ _ Hl Hne), (checkRecords_policy _ _ _ Hcrit).
    assert (Hgate : negb (isWildcard domain) && (length (withTag "issue" rrs) =? 0)%nat = false).
    { destruct Hsel as [->|Hi]; [reflexivity|].
      destruct (withTag "issue" rrs); [congruence|]. now rewrite Bool.andb_false_r. }
    rewrite Hgate, <- existsb_authorizes.
    destruct (existsb authorizes (applicableSet (isWildcard domain) rrs)); split;
      congruence.
Qed.

Lemma SplitN_two_nonempty (s sep : string) : SplitN s sep 2 <> [].
Proof. simpl. destruct (Index s sep); discriminate. Qed.

(** A name that is split at a dot has one. *)
Lemma SplitN_single (domain : string) :
  (forall a parent rest, SplitN domain "." 2 <> a :: parent :: rest) ->
  ~ In "."%char (list_ascii_of_string domain).
Proof.
  intros Hno. apply Index_byte_none.
  destruct (Index domain ".") as [m|] eqn:Hm; [|reflexivity].
  exfalso. apply (Hno (take m domain) (drop (m + len ".") domain) []).
  simpl. now rewrite Hm.
Qed.

(** The two pieces of a name split at its first dot. *)
Lemma SplitN_label_parent (domain label parent : string) (rest : list string) :
  SplitN domain "." 2 = label :: parent :: rest ->
  domain = label ++ "." ++ parent /\ ~ In "."%char (list_ascii_of_string label).
Proof.
  simpl. destruct (Index domain ".") as [m|] eqn:Hm; [|discriminate].
  intros H. injection H as <- <- _. split.
  - apply Index_bound in Hm. exact (proj2 Hm).
  - now apply Index_byte_some.
Qed.

Section Permissive.

(** The public suffix of a name without a dot is the name. *)
Hypothesis suffix_of_label :
  forall name, ~ In "."%char (list_ascii_of_string name) -> PublicSuffix name = name.

Lemma Check_rec_levels (n : nat) (domain : string) (method : ValidationMethod) :
  len domain < n ->
  Forall (fun name => Lookup name = ([], None)) (caaLevels_rec PublicSuffix n domain) ->
  check_rec n domain method = Some (caaLevels_rec PublicSuffix n domain, Returned [] None).
Proof.
  revert domain. induction n as [|n IH]; intros domain Hlen Hall; [lia|].
  cbn [Check_rec caaLevels_rec] in *. unfold Check_body.
  pose proof (Forall_inv Hall) as Hhere. cbv beta in Hhere.
  pose proof (Forall_inv_tail Hall) as Hrest. clear Hall.
  rewrite Hhere. cbn [length Nat.ltb Nat.leb].
  destruct (stripWildcard domain =? PublicSuffix (stripWildcard domain)) eqn:Hps;
    cbn [negb] in *; [reflexivity|].
  apply String.eqb_neq in Hps. revert Hrest.
  destruct (SplitN (stripWildcard domain) "." 2) as [|a [|parent rest]] eqn:Hsplit;
    intros Hrest.
  - now elim (SplitN_two_nonempty _ _ Hsplit).
  - exfalso. apply Hps. symmetry. apply suffix_of_label, SplitN_single.
    intros a' parent' rest'. rewrite Hsplit. discriminate.
  - apply SplitN_parent_shorter in Hsplit. change (len ".") with 1 in Hsplit.
    pose proof (stripWildcard_len domain).
    rewrite (IH parent); [reflexivity | lia | exact Hrest].
Qed.

(** C6.  When every level of the walk (the name without its wildcard
    marker, then parent after parent up to the first level that is its
    own public suffix) answers with no record, [Check] returns no
    finding, having looked up exactly those levels.  And a call goes on
    to a second name exactly when its own level answered with no record
    and is not its own public suffix; that second name is the parent, the
    name without its leftmost label (and without a wildcard marker). *)
Theorem no_records_no_findings (domain : string) (method : ValidationMethod) :
  (Forall (fun name => Lookup name = ([], None)) (levels domain) ->
   check domain method = Some (levels domain, Returned [] None)) /\
  (exists queried res,
      check domain method = Some (stripWildcard domain :: queried, res) /\
      (queried <> [] <->
       Lookup (stripWildcard domain) = ([], None) /\
       stripWildcard domain <> PublicSuffix (stripWildcard domain)) /\
      (forall second others,
          queried = second :: others ->
          exists label parent,
            stripWildcard domain = label ++ "." ++ parent /\
            ~ In "."%char (list_ascii_of_string label) /\
            second = stripWildcard parent)).
Proof.
  split.
  - intros Hall. apply Check_rec_levels; [lia | exact Hall].
  - rewrite Check_unfold. unfold Check_body.
    assert (Hleaf : forall res : CheckResult,
               ~ (Lookup (stripWildcard domain) = ([], None) /\
                  stripWildcard domain <> PublicSuffix (stripWildcard domain)) ->
               exists queried res',
                 Some ([stripWildcard domain], res) = Some (stripWildcard domain :: queried, res') /\
                 (queried <> [] <->
                  Lookup (stripWildcard domain) = ([], None) /\
                  stripWildcard domain <> PublicSuffix (stripWildcard domain)) /\
                 (forall second others,
                     queried = second :: others ->
                     exists label parent,
                       stripWildcard domain = label ++ "." ++ parent /\
                       ~ In "."%char (list_ascii_of_string label) /\
                       second = stripWildcard parent)).
    { intros res Hnot. exists [], res. split; [reflexivity|]. split; [|discriminate].
      split; [congruence | tauto]. }
    destruct (Lookup (stripWildcard domain)) as [rrs [e|]] eqn:Hl.
    { apply Hleaf. intros [H _]. discriminate. }
    destruct rrs as [|rr rrs]; cbn [length Nat.ltb Nat.leb].
    2:{ apply Hleaf. intros [H _]. discriminate. }
    destruct (stripWildcard domain =? PublicSuffix (stripWildcard domain)) eqn:Hps;
      cbn [negb].
    { apply String.eqb_eq in Hps. apply Hleaf. tauto. }
    apply String.eqb_neq in Hps.
    destruct (SplitN (stripWildcard domain) "." 2) as [|a [|parent rest]] eqn:Hsplit.
    + now elim (SplitN_two_nonempty _ _ Hsplit).
    + exfalso. apply Hps. symmetry. apply suffix_of_label, SplitN_single.
      intros a' parent' rest'. rewrite Hsplit. discriminate.
    + apply SplitN_label_parent in Hsplit. destruct Hsplit as [Hname Hlabel].
      destruct (Check_total parent method) as (queried & res & ->).
      assert (Hgoal : forall res' : CheckResult,
                 exists queried' res'',
                   Some (stripWildcard domain :: stripWildcard parent :: queried, res') =
                   Some (stripWildcard domain :: queried', res'') /\
                   (queried' <> [] <->
                    ([] : list RR, None : option error) = ([], None) /\
                    stripWildcard domain <> PublicSuffix (stripWildcard domain)) /\
                   (forall second others,
                       queried' = second :: others ->
                       exists label parent',
                         stripWildcard domain = label ++ "." ++ parent' /\
                         ~ In "."%char (list_ascii_of_string label) /\
                         second = stripWildcard parent')).
      { intros res'. exists (stripWildcard parent :: queried), res'.
        split; [reflexivity|]. split; [split; [auto | discriminate]|].
        intros second others H. injection H as <- _. now exists a, parent. }
      destruct res as [probs [e|]|]; apply Hgoal.
Qed.

End Permissive.

End CAAProperties.

(** ** The CAA checker on the example zones *)

Lemma LastIndexByte_none (s : string) (c : ascii) :
  ~ In c (list_ascii_of_string s) -> LastIndexByte s c = None.
Proof.
  induction s as [|d s IH]; simpl; [reflexivity|].
  intros Hno. rewrite IH by tauto.
  destruct (Ascii.eqb d c) eqn:He; [|reflexivity].
  apply Ascii.eqb_eq in He. tauto.
Qed.

Lemma lastLabel_of_label (name : string) :
  ~ In "."%char (list_ascii_of_string name) -> lastLabel name = name.
Proof. intros Hno. unfold lastLabel. now rewrite LastIndexByte_none. Qed.

(** C2.  The record [future] of [example.com] has an unknown tag and the
    flags byte 129, whose bit 0 is set (as is its bit 7), and the
    classification loop does not collect it: the loop compares the flags
    byte with 1. *)
Theorem critical_flags_129_not_collected :
  unknownTag futureRecord = true /\
  Z.testbit (Flag futureRecord) 0 = true /\
  Z.land (Flag futureRecord) 1 <> 0%Z /\
  criticalUnknown (classify [RR_CAA futureRecord]) = [].
Proof. repeat split. vm_compute. discriminate. Qed.

(** C3.  For [example.com], whose only CAA record is that critical record
    with an unknown tag, [Check] returns no finding at all, where the one
    finding [CaaCriticalUnknown] is due. *)
Theorem critical_flags_129_not_reported :
  unknownTag futureRecord = true /\
  Z.testbit (Flag futureRecord) 0 = true /\
  criticalLookup "example.com" = ([RR_CAA futureRecord], None) /\
  Check unit criticalLookup lastLabel exampleLookupFailed exampleCAAString "example.com" tt =
  Some (["example.com"], Returned [] None).
Proof. repeat split. Qed.

(** The lookup of [example.com] fails with SERVFAIL, and [Check] returns a
    finding and a nil error, not an error. *)
Lemma failed_lookup_returns_nil_error :
  snd (failingLookup "example.com") = Some (errorString "SERVFAIL") /\
  Check unit failingLookup lastLabel exampleLookupFailed exampleCAAString "example.com" tt =
  Some (["example.com"],
        Returned [exampleLookupFailed "example.com" "CAA" (errorString "SERVFAIL")] None) /\
  ~ (exists queried probs e,
        Check unit failingLookup lastLabel exampleLookupFailed exampleCAAString "example.com" tt =
        Some (queried, Returned probs (Some e))).
Proof.
  split; [reflexivity|]. split; [reflexivity|].
  intros (queried & probs & e & H). vm_compute in H. discriminate.
Qed.


Lemma no_records_no_findings_witness :
  (forall name, ~ In "."%char (list_ascii_of_string name) -> lastLabel name = name) /\
  Forall (fun name => emptyLookup name = ([], None))
    (caaLevels lastLabel "www.example.com") /\
  Check unit emptyLookup lastLabel exampleLookupFailed exampleCAAString "www.example.com" tt =
  Some (["www.example.com"; "example.com"; "com"], Returned [] None).
Proof.
  split; [exact lastLabel_of_label|].
  split; [repeat constructor|].
  apply (proj1 (no_records_no_findings unit emptyLookup lastLabel exampleLookupFailed
                  exampleCAAString lastLabel_of_label "www.example.com" tt)).
  repeat constructor.
Defined.

(** ** The HTTP checker *)

Section HTTPProperties.

Variable URL_String : URL -> string.
Variable IP_String : net_IP -> string.
Variable url_Parse : string -> URL + error.
Variable send : net_IP -> Request -> RoundTrip.
Variable internalProblem : string -> SeverityLevel -> Problem.

Local Abbreviation callback := (CheckRedirect URL_String).
Local Abbreviation client := (client_Do URL_String send).
Local Abbreviation translate := (translateHTTPError IP_String).
Local Abbreviation finish := (finishHTTP IP_String).
Local Abbreviation check := (checkHTTP URL_String IP_String url_Parse send internalProblem).

(** The four outcomes of the callback. *)
Lemma CheckRedirect_too_many (req : Request) (via : list Request) (redirErr : string) :
  10 <= length via ->
  callback req via redirErr = reject (tooManyMessage (length via) (URL_String (req_URL req))).
Proof.
  intros Hlen. unfold CheckRedirect.
  destruct (10 <=? length via)%nat eqn:H; [reflexivity|].
  apply Nat.leb_gt in H. lia.
Qed.

Lemma CheckRedirect_accepts (req : Request) (via : list Request) (redirErr : string) :
  length via < 10 -> hopAccepted (req_URL req) = true ->
  callback req via redirErr = (None, redirErr).
Proof.
  intros Hlen Hok. unfold CheckRedirect.
  destruct (10 <=? length via)%nat eqn:H; [apply Nat.leb_le in H; lia|].
  unfold hopAccepted, portAccepted, schemeAccepted in Hok.
  apply Bool.andb_true_iff in Hok. destruct Hok as [Hok Hwk].
  apply Bool.andb_true_iff in Hok. destruct Hok as [Hport Hscheme].
  destruct (badPort (Host (req_URL req))); [discriminate|].
  apply Bool.orb_true_iff in Hscheme. apply Bool.negb_true_iff in Hwk. rewrite Hwk.
  destruct Hscheme as [-> | ->]; [reflexivity|].
  now rewrite Bool.andb_false_r.
Qed.

Lemma CheckRedirect_well_known (req : Request) (via : list Request) (redirErr : string) :
  length via < 10 -> portAccepted (req_URL req) = true -> schemeAccepted (req_URL req) = true ->
  HasSuffix (Hostname (req_URL req)) ".well-known" = true ->
  callback req via redirErr = reject (trailingSlashMessage (URL_String (req_URL req))).
Proof.
  intros Hlen Hport Hscheme Hwk. unfold CheckRedirect.
  destruct (10 <=? length via)%nat eqn:H; [apply Nat.leb_le in H; lia|].
  unfold portAccepted, schemeAccepted in *.
  destruct (badPort (Host (req_URL req))); [discriminate|].
  apply Bool.orb_true_iff in Hscheme. rewrite Hwk.
  destruct Hscheme as [-> | ->]; [reflexivity|].
  now rewrite Bool.andb_false_r.
Qed.

(** What the callback returns is either nothing, with the variable left
    as it was, or a refusal whose message it also stores. *)
Lemma CheckRedirect_result (req : Request) (via : list Request) (redirErr : string) :
  callback req via redirErr = (None, redirErr) \/
  exists c msg, callback req via redirErr = reject (String c msg).
Proof.
  unfold CheckRedirect.
  destruct (10 <=? length via)%nat; [right; eexists; eexists; reflexivity|].
  destruct (badPort (Host (req_URL req))); [right; eexists; eexists; reflexivity|].
  destruct (negb (ToLower (Scheme (req_URL req)) =? "http")
            && negb (ToLower (Scheme (req_URL req)) =? "https"));
    [right; eexists; eexists; reflexivity|].
  destruct (HasSuffix (Hostname (req_URL req)) ".well-known");
    [right; eexists; eexists; reflexivity | now left].
Qed.

(** Ten requests are always enough for the client to finish. *)
Lemma client_Do_total (fuel : nat) (address : net_IP) (reqs : list Request) (req : Request)
    (redirErr : string) :
  0 < fuel -> 10 <= length reqs + fuel ->
  exists out, client fuel address reqs req redirErr = Some out.
Proof.
  revert reqs req redirErr. induction fuel as [|fuel IH]; intros reqs req redirErr Hpos Hsum; [lia|].
  simpl. destruct (send address req) as [err|resp]; [eauto|].
  destruct (resp_Location resp) as [loc|]; [|eauto].
  destruct (Nat.le_gt_cases 10 (length (reqs ++ [req]))) as [Hmany|Hfew].
  - rewrite CheckRedirect_too_many by exact Hmany. unfold reject. eauto.
  - destruct (callback (mkRequest loc (Header req)) (reqs ++ [req])%list redirErr)
      as [[err|] redirErr']; [eauto|].
    rewrite length_app in Hfew. simpl in Hfew.
    apply IH; [lia | rewrite length_app; simpl; lia].
Qed.

Lemma checkHTTP_total (fuel : nat) (domain : string) (address : net_IP) :
  10 <= fuel -> exists out, check fuel domain address = Some out.
Proof.
  intros Hfuel. unfold checkHTTP.
  destruct (url_Parse (firstURL domain)) as [u|err]; [|eauto].
  destruct (client_Do_total fuel address [] (mkRequest u firstHeader) "") as [[[resp err] r] ->];
    [lia | simpl; lia | eauto].
Qed.

Lemma last_cons_default (A : Type) (x : A) (l : list A) (d d' : A) :
  last (x :: l) d = last (x :: l) d'.
Proof.
  revert x. induction l as [|y l IH]; intros x; [reflexivity|].
  change (last (y :: l) d = last (y :: l) d'). apply IH.
Qed.

Lemma chainEnd_cons (u target : URL) (resp : Response) (hops : list (Response * URL)) :
  chainEnd u ((resp, target) :: hops) = chainEnd target hops.
Proof.
  unfold chainEnd. simpl map. destruct (map snd hops) as [|x l]; [reflexivity|].
  change (last (x :: l) u = last (x :: l) target). apply last_cons_default.
Qed.

(** The client along a chain of accepted redirects. *)
Lemma client_Do_follow (address : net_IP) (header : list (string * string))
    (hops : list (Response * URL)) :
  forall (fuel : nat) (reqs : list Request) (u : URL) (redirErr : string),
    redirects (send address) header u hops ->
    Forall (fun hop => hopAccepted (snd hop) = true) hops ->
    length reqs + length hops <= 9 ->
    exists reqs',
      length reqs' = length reqs + length hops /\
      client (length hops + fuel) address reqs (mkRequest u header) redirErr =
      client fuel address reqs' (mkRequest (chainEnd u hops) header) redirErr.
Proof.
  induction hops as [|[resp target] hops IH]; intros fuel reqs u redirErr Hchain Hok Hlen.
  - exists reqs. split; [simpl; lia | reflexivity].
  - destruct Hchain as (Hsend & Hloc & Hchain).
    pose proof (Forall_inv Hok) as Hhere. pose proof (Forall_inv_tail Hok) as Hrest.
    simpl in Hhere, Hlen.
    destruct (IH fuel (reqs ++ [mkRequest u header])%list target redirErr Hchain Hrest)
      as (reqs' & Hlen' & Heq).
    { rewrite length_app. simpl. lia. }
    exists reqs'. split; [rewrite Hlen', length_app; simpl; lia|].
    cbn [length Nat.add client_Do]. rewrite Hsend, Hloc. cbn [Header].
    rewrite CheckRedirect_accepts; [|rewrite length_app; simpl; lia | exact Hhere].
    now rewrite Heq, chainEnd_cons.
Qed.

Lemma redirects_snoc (address : net_IP) (header : list (string * string))
    (hops : list (Response * URL)) (resp : Response) (target : URL) :
  forall u,
    redirects (send address) header u (hops ++ [(resp, target)]) ->
    redirects (send address) header u hops /\
    send address (mkRequest (chainEnd u hops) header) = rtResponse resp /\
    resp_Location resp = Some target.
Proof.
  induction hops as [|[r v] hops IH]; intros u; simpl.
  - intros (Hsend & Hloc & _). auto.
  - intros (Hsend & Hloc & Hchain). rewrite chainEnd_cons.
    destruct (IH v Hchain) as (H1 & H2 & H3). auto.
Qed.

(** A failure is never reported as the empty problem. *)
Lemma translateHTTPError_not_empty (domain : string) (address : net_IP) (e : error) :
  translate domain address e <> noProblem.
Proof.
  unfold translateHTTPError. intros H. apply (f_equal Name) in H.
  destruct e; try discriminate;
    destruct (HasSuffix _ _); try discriminate;
    destruct (To4 address); discriminate.
Qed.

(** C1, as amended.  The callback refuses a redirect for its number
    exactly when ten requests have been made already, which is at the
    tenth redirect: a chain of up to nine redirects, each accepted
    otherwise, ends with the response of its last page and the empty
    problem; the tenth redirect of a chain is refused, and the result is
    the response that asked for it with the [BadRedirect] problem whose
    detail counts ten redirects and names the target of the tenth. *)
Theorem redirect_limit (domain : string) (address : net_IP) (u : URL) (fuel : nat) :
  url_Parse (firstURL domain) = inl u ->
  10 <= fuel ->
  (forall req via redirErr,
      (10 <= length via ->
       callback req via redirErr =
       reject (tooManyMessage (length via) (URL_String (req_URL req)))) /\
      (hopAccepted (req_URL req) = true ->
       (fst (callback req via redirErr) = None <-> length via < 10))) /\
  (forall hops final,
      redirects (send address) firstHeader u hops ->
      Forall (fun hop => hopAccepted (snd hop) = true) hops ->
      length hops <= 9 ->
      send address (mkRequest (chainEnd u hops) firstHeader) = rtResponse final ->
      resp_Location final = None ->
      check fuel domain address =
      Some (mkResult (resp_StatusCode final) (resp_Server final) address, noProblem)) /\
  (forall hops resp target,
      redirects (send address) firstHeader u (hops ++ [(resp, target)]) ->
      Forall (fun hop => hopAccepted (snd hop) = true) hops ->
      length hops = 9 ->
      check fuel domain address =
      Some (mkResult (resp_StatusCode resp) (resp_Server resp) address,
            badRedirect domain (redirectError (tooManyMessage 10 (URL_String target))))).
Proof.
  intros Hparse Hfuel. split; [|split].
  - intros req via redirErr. split; [apply CheckRedirect_too_many|].
    intros Hok. split.
    + intros Hnone. destruct (Nat.le_gt_cases 10 (length via)) as [Hmany|Hfew]; [|exact Hfew].
      rewrite CheckRedirect_too_many in Hnone by exact Hmany. discriminate.
    + intros Hfew. now rewrite CheckRedirect_accepts.
  - intros hops final Hchain Hok Hlen Hsend Hloc.
    unfold checkHTTP. rewrite Hparse.
    replace fuel with (length hops + S (fuel - length hops - 1)) by lia.
    destruct (client_Do_follow address firstHeader hops (S (fuel - length hops - 1)) []
                u "" Hchain Hok) as (reqs' & _ & ->); [simpl; lia|].
    cbn [client_Do]. rewrite Hsend, Hloc. reflexivity.
  - intros hops resp target Hchain Hok Hlen.
    apply redirects_snoc in Hchain. destruct Hchain as (Hchain & Hsend & Hloc).
    unfold checkHTTP. rewrite Hparse.
    replace fuel with (length hops + S (fuel - length hops - 1)) by lia.
    destruct (client_Do_follow address firstHeader hops (S (fuel - length hops - 1)) []
                u "" Hchain Hok) as (reqs' & Hlen' & ->); [simpl; lia|].
    cbn [client_Do]. rewrite Hsend, Hloc.
    assert (Hten : length (reqs' ++ [mkRequest (chainEnd u hops) firstHeader]) = 10)
      by (rewrite length_app, Hlen'; simpl; lia).
    rewrite CheckRedirect_too_many by lia. rewrite Hten. reflexivity.
Qed.

(** C8, as amended.  A redirect to a URL whose hostname ends in
    [.well-known] is always refused.  When it passes the checks that come
    first (fewer than ten requests made, no port other than 80 and 443,
    scheme [http] or [https]) the refusal carries the message about the
    missing slash after the domain name, with the URL in it, and the
    problem built from it is [BadRedirect], of severity Error, with that
    message as detail.  No other check of the callback produces a message
    that begins like this one. *)
Theorem well_known_redirect_refused (domain : string) (address : net_IP)
    (req : Request) (via : list Request) (redirErr : string) :
  HasSuffix (Hostname (req_URL req)) ".well-known" = true ->
  (exists c msg, callback req via redirErr = reject (String c msg)) /\
  (length via < 10 -> portAccepted (req_URL req) = true ->
   schemeAccepted (req_URL req) = true ->
   let msg := trailingSlashMessage (URL_String (req_URL req)) in
   let problem := translate domain address (redirectError msg) in
   callback req via redirErr = reject msg /\
   problem = badRedirect domain (redirectError msg) /\
   Name problem = "BadRedirect" /\ Severity problem = SeverityError /\
   Detail problem = msg) /\
  (forall req' via' redirErr' msg',
      callback req' via' redirErr' = reject msg' ->
      HasPrefix msg' "It appears that a redirect" = true ->
      HasSuffix (Hostname (req_URL req')) ".well-known" = true /\
      msg' = trailingSlashMessage (URL_String (req_URL req'))).
Proof.
  intros Hwk. split; [|split].
  - destruct (CheckRedirect_result req via redirErr) as [Hnone|Hrej]; [|exact Hrej].
    exfalso. revert Hnone. unfold CheckRedirect.
    destruct (10 <=? length via)%nat; [discriminate|].
    destruct (badPort (Host (req_URL req))); [discriminate|].
    destruct (negb (ToLower (Scheme (req_URL req)) =? "http")
              && negb (ToLower (Scheme (req_URL req)) =? "https")); [discriminate|].
    rewrite Hwk. discriminate.
  - intros Hlen Hport Hscheme msg problem.
    split; [now apply CheckRedirect_well_known | now repeat split].
  - intros req' via' redirErr' msg'. unfold CheckRedirect.
    destruct (10 <=? length via')%nat;
      [intros H; injection H as <-; discriminate|].
    destruct (badPort (Host (req_URL req')));
      [intros H; injection H as <-; discriminate|].
    destruct (negb (ToLower (Scheme (req_URL req')) =? "http")
              && negb (ToLower (Scheme (req_URL req')) =? "https"));
      [intros H; injection H as <-; discriminate|].
    destruct (HasSuffix (Hostname (req_URL req')) ".well-known"); [|discriminate].
    intros H _. injection H as <-. split; reflexivity.
Qed.

(** C9.  Whenever the client hands back a response together with an
    error, the result of [checkHTTP] carries the status code and the
    [Server] header of that response, and comes with the problem the
    error translates to, which is never the empty one.  So it is for a
    redirect the callback refuses: the result is filled from the response
    that asked for the redirect, and the problem is [BadRedirect] with
    the message of the refusal. *)
Theorem partial_response_captured (fuel : nat) (domain : string) (address : net_IP) (u : URL) :
  url_Parse (firstURL domain) = inl u ->
  (forall resp err redirErr,
      client fuel address [] (mkRequest u firstHeader) "" = Some (Some resp, Some err, redirErr) ->
      exists problem,
        check fuel domain address =
        Some (mkResult (resp_StatusCode resp) (resp_Server resp) address, problem) /\
        problem =
        translate domain address
          (if negb (redirErr =? "") then redirectError redirErr else err) /\
        problem <> noProblem) /\
  (forall resp target c msg,
      0 < fuel ->
      send address (mkRequest u firstHeader) = rtResponse resp ->
      resp_Location resp = Some target ->
      callback (mkRequest target firstHeader) [mkRequest u firstHeader] "" = reject (String c msg) ->
      check fuel domain address =
      Some (mkResult (resp_StatusCode resp) (resp_Server resp) address,
            badRedirect domain (redirectError (String c msg)))).
Proof.
  intros Hparse. split.
  - intros resp err redirErr Hdo. unfold checkHTTP. rewrite Hparse, Hdo.
    eexists. split; [reflexivity|]. split; [reflexivity|].
    apply translateHTTPError_not_empty.
  - intros resp target c msg Hfuel Hsend Hloc Hrej.
    unfold checkHTTP. rewrite Hparse.
    destruct fuel as [|fuel]; [lia|].
    cbn [client_Do app]. rewrite Hsend, Hloc. cbn [Header]. rewrite Hrej.
    reflexivity.
Qed.

End HTTPProperties.

(** ** The HTTP checker on the example sites *)

(** The site with a chain of exactly ten redirects, each accepted otherwise,
    and a last page that answers 200: the check does not succeed, it ends
    at the tenth redirect. *)
Lemma ten_redirects_refused :
  redirects (redirectingServer 10 exampleAddress) firstHeader (hopURL 0) (exampleHops 0 10) /\
  length (exampleHops 0 10) = 10 /\
  Forall (fun hop => hopAccepted (snd hop) = true) (exampleHops 0 10) /\
  redirectingServer 10 exampleAddress (mkRequest (chainEnd (hopURL 0) (exampleHops 0 10)) firstHeader)
  = rtResponse (mkResponse 200 "nginx" None) /\
  forall fuel, 10 <= fuel ->
    checkHTTP plainURLString exampleIPString exampleParse (redirectingServer 10) exampleInternal
      fuel "example.com" exampleAddress =
    Some (mkResult 302 "nginx" exampleAddress,
          badRedirect "example.com"
            (redirectError ("Too many (10) redirects, last redirect was to: "
                            ++ plainURLString (hopURL 10)))).
Proof.
  split; [vm_compute; repeat split|].
  split; [reflexivity|].
  split; [repeat constructor|].
  split; [reflexivity|].
  intros fuel Hfuel. do 10 (destruct fuel as [|fuel]; [lia|]).
  vm_compute. reflexivity.
Qed.

Lemma redirect_limit_witness :
  exampleParse (firstURL "example.com") = inl (hopURL 0) /\
  10 <= 10 /\
  checkHTTP plainURLString exampleIPString exampleParse (redirectingServer 9) exampleInternal
    10 "example.com" exampleAddress =
  Some (mkResult 200 "nginx" exampleAddress, noProblem).
Proof.
  split; [reflexivity|]. split; [exact (le_n 10)|].
  apply (proj1 (proj2 (redirect_limit plainURLString exampleIPString exampleParse
                         (redirectingServer 9) exampleInternal "example.com" exampleAddress
                         (hopURL 0) 10 eq_refl (le_n 10)))
           (exampleHops 0 9) (mkResponse 200 "nginx" None)).
  - vm_compute. repeat split.
  - repeat constructor.
  - vm_compute. repeat constructor.
  - reflexivity.
  - reflexivity.
Defined.

(** A redirect to a hostname that ends in [.well-known], with the port 8080:
    the refusal is the one for the port, not the one for the missing
    slash. *)
Lemma dropped_slash_with_bad_port :
  HasSuffix (Hostname droppedSlashURL) ".well-known" = true /\
  CheckRedirect plainURLString (mkRequest droppedSlashURL firstHeader)
    [mkRequest (hopURL 0) firstHeader] "" =
  reject ("Bad port number provided when fetching " ++ plainURLString droppedSlashURL ++ ": 8080") /\
  checkHTTP plainURLString exampleIPString exampleParse droppedSlashServer exampleInternal
    10 "example.com" exampleAddress =
  Some (mkResult 301 "Apache" exampleAddress,
        badRedirect "example.com"
          (redirectError
             ("Bad port number provided when fetching " ++ plainURLString droppedSlashURL ++ ": 8080"))) /\
  "Bad port number provided when fetching " ++ plainURLString droppedSlashURL ++ ": 8080"
  <> trailingSlashMessage (plainURLString droppedSlashURL).
Proof. repeat split. vm_compute. discriminate. Qed.

Lemma well_known_redirect_refused_witness :
  HasSuffix (Hostname slashlessURL) ".well-known" = true /\
  CheckRedirect plainURLString (mkRequest slashlessURL firstHeader)
    [mkRequest (hopURL 0) firstHeader] "" =
  reject (trailingSlashMessage "http://example.com.well-known/acme-challenge/letsdebug-test").
Proof.
  split; [reflexivity|].
  apply (proj1 (proj2 (well_known_redirect_refused plainURLString exampleIPString
                         "example.com" exampleAddress (mkRequest slashlessURL firstHeader)
                         [mkRequest (hopURL 0) firstHeader] "" eq_refl))).
  - vm_compute. repeat constructor.
  - reflexivity.
  - reflexivity.
Defined.

Lemma partial_response_captured_witness :
  exampleParse (firstURL "example.com") = inl (hopURL 0) /\
  checkHTTP plainURLString exampleIPString exampleParse slashlessServer exampleInternal
    10 "example.com" exampleAddress =
  Some (mkResult 301 "Apache" exampleAddress,
        badRedirect "example.com"
          (redirectError
             (trailingSlashMessage "http://example.com.well-known/acme-challenge/letsdebug-test"))).
Proof.
  split; [reflexivity|].
  apply (proj2 (partial_response_captured plainURLString exampleIPString exampleParse
                  slashlessServer exampleInternal 10 "example.com" exampleAddress (hopURL 0)
                  eq_refl)
           (mkResponse 301 "Apache" (Some slashlessURL)) slashlessURL "I"%char).
  - vm_compute. repeat constructor.
  - reflexivity.
  - reflexivity.
  - reflexivity.
Defined.

(** * Further properties of the code *)

(** ** [extractIssuerDomain] and the test for the issuer *)

Section IssuerDomain.

Lemma Index_byte_absent (s : string) (c : ascii) :
  ~ In c (list_ascii_of_string s) -> Index s (String c "") = None.
Proof.
  induction s as [|d s IH]; intros Hno; [reflexivity|].
  rewrite Index_byte_cons. simpl in Hno.
  destruct (Ascii.eqb d c) eqn:He.
  - apply Ascii.eqb_eq in He. tauto.
  - rewrite IH by tauto. reflexivity.
Qed.

Lemma Index_byte_first (s rest : string) (c : ascii) :
  ~ In c (list_ascii_of_string s) -> Index (s ++ String c rest) (String c "") = Some (len s).
Proof.
  induction s as [|d s IH]; intros Hno.
  - simpl append. rewrite Index_byte_cons, Ascii.eqb_refl. reflexivity.
  - simpl append. rewrite Index_byte_cons. simpl in Hno.
    destruct (Ascii.eqb d c) eqn:He.
    + apply Ascii.eqb_eq in He. tauto.
    + rewrite IH by tauto. reflexivity.
Qed.

Lemma append_empty_r (s : string) : s ++ "" = s.
Proof. induction s as [|c s IH]; simpl; [reflexivity | now rewrite IH]. Qed.

Lemma take_append (a b : string) : take (len a) (a ++ b) = a.
Proof. unfold len. induction a as [|x a IH]; simpl; [now destruct b | now rewrite IH]. Qed.

Lemma drop_append (a b : string) : drop (len a) (a ++ b) = b.
Proof. unfold len. induction a as [|x a IH]; simpl; auto. Qed.

Lemma SplitN_two_at (s rest : string) (c : ascii) :
  ~ In c (list_ascii_of_string s) ->
  SplitN (s ++ String c rest) (String c "") 2 = [s; rest].
Proof.
  intros Hno. simpl. rewrite Index_byte_first by exact Hno.
  rewrite take_append. f_equal. f_equal.
  replace (len s + 1) with (len (s ++ String c "")) by (rewrite len_append; reflexivity).
  replace (s ++ String c rest) with ((s ++ String c "") ++ rest)
    by (rewrite append_assoc; reflexivity).
  apply drop_append.
Qed.

Lemma SplitN_two_whole (s : string) (c : ascii) :
  ~ In c (list_ascii_of_string s) -> SplitN s (String c "") 2 = [s].
Proof. intros Hno. simpl. now rewrite Index_byte_absent. Qed.

Variable cutset : string.

Lemma TrimRight_fixed (s : string) :
  (forall s' c, s = s' ++ String c "" -> inCutset c cutset = false) ->
  TrimRight s cutset = s.
Proof.
  induction s as [|c s IH]; intros Hend; [reflexivity|].
  simpl. rewrite IH.
  - destruct s as [|d s]; [|reflexivity].
    now rewrite (Hend "" c eq_refl).
  - intros s' x ->. apply (Hend (String c s') x). reflexivity.
Qed.

Lemma TrimLeft_fixed (s : string) :
  (forall c s', s = String c s' -> inCutset c cutset = false) ->
  TrimLeft s cutset = s.
Proof.
  destruct s as [|c s]; intros Hstart; [reflexivity|].
  simpl. now rewrite (Hstart c s eq_refl).
Qed.

Lemma Trim_fixed (s : string) : endsFree cutset s -> Trim s cutset = s.
Proof.
  intros [Hstart Hend]. unfold Trim.
  rewrite TrimRight_fixed by exact Hend. now apply TrimLeft_fixed.
Qed.

Lemma TrimLeft_lead (lead s : string) :
  onlyFrom cutset lead -> TrimLeft (lead ++ s) cutset = TrimLeft s cutset.
Proof.
  induction lead as [|c lead IH]; intros Hlead; [reflexivity|].
  simpl. rewrite (Hlead c) by now left.
  apply IH. intros x Hx. apply Hlead. now right.
Qed.

Lemma TrimRight_all (trail : string) :
  onlyFrom cutset trail -> TrimRight trail cutset = "".
Proof.
  induction trail as [|c trail IH]; intros Htrail; [reflexivity|].
  simpl. rewrite IH by (intros x Hx; apply Htrail; now right).
  now rewrite (Htrail c) by now left.
Qed.

Lemma TrimRight_trail (s trail : string) :
  onlyFrom cutset trail -> TrimRight (s ++ trail) cutset = TrimRight s cutset.
Proof.
  intros Htrail. induction s as [|c s IH]; simpl.
  - now apply TrimRight_all.
  - now rewrite IH.
Qed.

Lemma TrimRight_lead (lead s : string) :
  TrimRight s cutset <> "" -> TrimRight (lead ++ s) cutset = lead ++ TrimRight s cutset.
Proof.
  intros Hne. induction lead as [|c lead IH]; [reflexivity|].
  simpl. rewrite IH. destruct (lead ++ TrimRight s cutset) as [|d t] eqn:Ht; [|reflexivity].
  destruct lead; simpl in Ht; [contradiction | discriminate].
Qed.

End IssuerDomain.

(** X1.  Whatever follows the first semicolon of a value plays no part:
    a value made of a text without semicolon, a semicolon and parameters has
    the issuer domain of the text alone. *)
Theorem extractIssuerDomain_ignores_parameters (domain params : string) :
  ~ In ";"%char (list_ascii_of_string domain) ->
  extractIssuerDomain (domain ++ String ";" params) = extractIssuerDomain domain.
Proof.
  intros Hno. unfold extractIssuerDomain.
  now rewrite (SplitN_two_at domain params ";" Hno), (SplitN_two_whole domain ";" Hno).
Qed.

Lemma extractIssuerDomain_ignores_parameters_witness :
  ~ In ";"%char (list_ascii_of_string " letsencrypt.org ") /\
  extractIssuerDomain (" letsencrypt.org " ++ String ";" " validationmethods=dns-01") =
  extractIssuerDomain " letsencrypt.org ".
Proof.
  assert (Hno : ~ In ";"%char (list_ascii_of_string " letsencrypt.org ")).
  { simpl. intros H. repeat (destruct H as [H|H]; [discriminate H|]). exact H. }
  split; [exact Hno|].
  exact (extractIssuerDomain_ignores_parameters " letsencrypt.org "
           " validationmethods=dns-01" Hno).
Defined.

Lemma extractIssuerDomain_shape (value : string) :
  ~ In ";"%char (list_ascii_of_string (extractIssuerDomain value)) /\
  endsFree spaceTab (extractIssuerDomain value).
Proof.
  unfold extractIssuerDomain.
  destruct (SplitN_two_field value ";") as (field & rest & -> & [Hfree _] & _).
  destruct (Trim_spec spaceTab field) as (lead & trail & Heq & _ & _ & Hends).
  split; [|exact Hends].
  intros Hin. apply Hfree. rewrite Heq, !chars_append.
  apply in_or_app. right. apply in_or_app. now left.
Qed.

(** X2.  An issuer domain is its own issuer domain: extracting twice gives
    what extracting once gives. *)
Theorem extractIssuerDomain_idempotent (value : string) :
  extractIssuerDomain (extractIssuerDomain value) = extractIssuerDomain value.
Proof.
  destruct (extractIssuerDomain_shape value) as [Hno Hends].
  unfold extractIssuerDomain at 1.
  rewrite (SplitN_two_whole _ ";" Hno). now apply Trim_fixed.
Qed.

(** X3.  The values that authorize issuance are exactly the text
    "letsencrypt.org" with spaces and tabs, and nothing else, around it,
    followed or not by a semicolon and anything at all. *)
Theorem authorizes_iff_value (r : CAA) :
  authorizes r = true <->
  exists lead trail,
    onlyFrom spaceTab lead /\ onlyFrom spaceTab trail /\
    (Value r = lead ++ "letsencrypt.org" ++ trail \/
     exists params, Value r = (lead ++ "letsencrypt.org" ++ trail) ++ String ";" params).
Proof.
  unfold authorizes. rewrite String.eqb_eq. split.
  - unfold extractIssuerDomain.
    destruct (SplitN_two_field (Value r) ";") as (field & rest & -> & [Hfree Hcut] & _).
    destruct (Trim_spec spaceTab field) as (lead & trail & Heq & Hlead & Htrail & _).
    intros Hle. rewrite Hle in Heq. exists lead, trail.
    split; [exact Hlead|]. split; [exact Htrail|].
    destruct Hcut as [->|[params ->]]; [left | right; exists params]; now rewrite Heq.
  - intros (lead & trail & Hlead & Htrail & Hvalue).
    assert (Hsemi : forall s, onlyFrom spaceTab s -> ~ In ";"%char (list_ascii_of_string s)).
    { intros s Hs Hin. apply Hs in Hin. discriminate Hin. }
    assert (Hno : ~ In ";"%char (list_ascii_of_string (lead ++ "letsencrypt.org" ++ trail))).
    { rewrite !chars_append. intros Hin.
      apply in_app_or in Hin. destruct Hin as [Hin|Hin]; [now apply (Hsemi lead)|].
      apply in_app_or in Hin. destruct Hin as [Hin|Hin]; [|now apply (Hsemi trail)].
      simpl in Hin. repeat (destruct Hin as [Hin|Hin]; [discriminate Hin|]). exact Hin. }
    assert (Htrim : Trim (lead ++ "letsencrypt.org" ++ trail) spaceTab = "letsencrypt.org").
    { unfold Trim. rewrite <- append_assoc.
      rewrite (TrimRight_trail spaceTab _ trail Htrail).
      rewrite (TrimRight_lead spaceTab lead "letsencrypt.org") by discriminate.
      rewrite (TrimLeft_lead spaceTab lead _ Hlead). reflexivity. }
    unfold extractIssuerDomain.
    destruct Hvalue as [-> | [params ->]].
    + now rewrite (SplitN_two_whole _ ";" Hno).
    + now rewrite (SplitN_two_at _ params ";" Hno).
Qed.

(** ** The classification of an answer *)

(** X4.  Classifying an answer piece by piece: the three sets of two answers
    put end to end are the sets of the first followed by the sets of the
    second, so every set keeps the order of the answer. *)
Theorem classify_app (first second : list RR) :
  classify (first ++ second) =
  mkSets (issue (classify first) ++ issue (classify second))
         (issuewild (classify first) ++ issuewild (classify second))
         (criticalUnknown (classify first) ++ criticalUnknown (classify second)).
Proof.
  unfold classify at 1. rewrite fold_left_app. fold (classify first).
  rewrite classify_fold, (classify_sets second). reflexivity.
Qed.

Lemma filter_relevant_records (keep : CAA -> bool) (rrs : list RR) :
  (forall c, keep c = true -> relevantRR (RR_CAA c) = true) ->
  filter keep (caaRecords (filter relevantRR rrs)) = filter keep (caaRecords rrs).
Proof.
  intros Hkeep. unfold caaRecords.
  induction rrs as [|[c|text] rrs IH]; [reflexivity| |exact IH].
  cbn [filter]. destruct (relevantRR (RR_CAA c)) eqn:Hrel.
  - cbn [flat_map app filter]. now rewrite IH.
  - cbn [flat_map app filter]. rewrite IH.
    destruct (keep c) eqn:Hc; [|reflexivity].
    rewrite (Hkeep c Hc) in Hrel. discriminate.
Qed.

(** X5.  Records of other types, [iodef] records and records with an unknown
    tag whose flags byte is not 1 never change the findings of a level:
    the findings are those of the answer without them. *)
Theorem checkRecords_ignores_irrelevant (CAA_String : CAA -> string)
    (domain : string) (wildcard : bool) (rrs : list RR) :
  checkRecords CAA_String domain wildcard rrs =
  checkRecords CAA_String domain wildcard (filter relevantRR rrs).
Proof.
  unfold checkRecords. rewrite !classify_sets. cbn [issue issuewild criticalUnknown].
  unfold withTag. rewrite !filter_relevant_records; [reflexivity|..];
    intros c Hc; simpl;
    try (apply Bool.andb_true_iff in Hc; destruct Hc as [Hu Hf]; rewrite Hu, Hf);
    try rewrite Hc; now rewrite ?Bool.orb_true_r.
Qed.

(** ** The walk of [Check] *)

Section CAAWalk.

Variable ValidationMethod : Type.
Variable Lookup : string -> list RR * option error.
Variable PublicSuffix : string -> string.
Variable dnsLookupFailed : string -> string -> error -> Problem.
Variable CAA_String : CAA -> string.

Local Abbreviation check := (Check ValidationMethod Lookup PublicSuffix dnsLookupFailed CAA_String).
Local Abbreviation body := (Check_body ValidationMethod Lookup PublicSuffix dnsLookupFailed CAA_String).
Local Abbreviation unfold_check :=
  (Check_unfold ValidationMethod Lookup PublicSuffix dnsLookupFailed CAA_String).
Local Abbreviation total_check :=
  (Check_total ValidationMethod Lookup PublicSuffix dnsLookupFailed CAA_String).

Lemma checkRecords_shape (domain : string) (wildcard : bool) (rrs : list RR) :
  length (checkRecords CAA_String domain wildcard rrs) <= 1 /\
  Forall (caaFinding dnsLookupFailed) (checkRecords CAA_String domain wildcard rrs).
Proof.
  unfold checkRecords.
  destruct (0 <? length (criticalUnknown (classify rrs)))%nat.
  { split; [simpl; lia|]. constructor; [|constructor]. right. simpl. auto. }
  destruct ((length (issue (classify rrs)) =? 0)%nat && negb wildcard).
  { split; [simpl; lia | constructor]. }
  destruct (existsb authorizes _).
  { split; [simpl; lia | constructor]. }
  split; [simpl; lia|]. constructor; [|constructor]. right. simpl. auto.
Qed.

Lemma Check_findings_shape (domain : string) (method : ValidationMethod)
    (queried : list string) (probs : list Problem) (err : option error) :
  check domain method = Some (queried, Returned probs err) ->
  length probs <= 1 /\ Forall (caaFinding dnsLookupFailed) probs.
Proof.
  remember (len domain) as n eqn:Hn. revert domain Hn queried probs err.
  induction n as [n IH] using lt_wf_ind. intros domain -> queried probs err.
  rewrite unfold_check. unfold Check_body.
  destruct (Lookup (stripWildcard domain)) as [rrs [e|]].
  { intros H. injection H as _ <- _. split; [simpl; lia|].
    constructor; [|constructor]. left. eauto. }
  destruct (0 <? length rrs)%nat.
  { intros H. injection H as _ <- _. apply checkRecords_shape. }
  destruct (negb (stripWildcard domain =? PublicSuffix (stripWildcard domain))).
  2:{ intros H. injection H as _ <- _. split; [simpl; lia | constructor]. }
  destruct (SplitN (stripWildcard domain) "." 2) as [|a [|parent rest]] eqn:Hsplit;
    try discriminate.
  apply SplitN_parent_shorter in Hsplit. change (len ".") with 1 in Hsplit.
  pose proof (stripWildcard_len domain) as Hstrip.
  destruct (check parent method) as [[qs [ps [e|]|]]|] eqn:Hp; try discriminate.
  - intros H. injection H as _ <- _. split; [simpl; lia | constructor].
  - intros H. injection H as _ <- _.
    exact (IH (len parent) ltac:(lia) parent eq_refl qs ps None Hp).
Qed.

(** X6.  Every call of [Check] comes to an end, and when it returns it
    returns at most one finding: the diagnostic of a failed lookup, or one
    of the two CAA diagnostics, which are of fatal severity. *)
Theorem Check_at_most_one_finding (domain : string) (method : ValidationMethod) :
  exists queried res,
    Check ValidationMethod Lookup PublicSuffix dnsLookupFailed CAA_String domain method =
    Some (queried, res) /\
    forall probs err,
      res = Returned probs err ->
      length probs <= 1 /\
      forall p, In p probs ->
        (exists name e, p = dnsLookupFailed name "CAA" e) \/
        (Severity p = SeverityFatal /\
         (Name p = "CaaCriticalUnknown" \/ Name p = "CaaIssuanceNotAllowed")).
Proof.
  destruct (total_check domain method) as (queried & res & Hc).
  exists (stripWildcard domain :: queried), res. split; [exact Hc|].
  intros probs err ->. destruct (Check_findings_shape _ _ _ _ _ Hc) as [Hlen Hall].
  split; [exact Hlen|]. intros p Hin. rewrite Forall_forall in Hall. exact (Hall p Hin).
Qed.

Lemma stripWildcard_suffix (domain : string) : suffixOf (stripWildcard domain) domain.
Proof.
  unfold stripWildcard, isWildcard, HasPrefix.
  destruct (String.prefix "*." domain) eqn:Hp; [|now exists ""].
  exists "*.". exact (prefix_split _ _ Hp).
Qed.

Lemma suffixOf_trans (a b c : string) : suffixOf a b -> suffixOf b c -> suffixOf a c.
Proof.
  intros [p ->] [q ->]. exists (q ++ p). now rewrite append_assoc.
Qed.

Lemma suffixOf_len (a b : string) : suffixOf a b -> len a <= len b.
Proof. intros [p ->]. rewrite len_append. lia. Qed.

Lemma Check_queried_chain (domain : string) (method : ValidationMethod)
    (queried : list string) (res : CheckResult) :
  check domain method = Some (queried, res) ->
  Forall (fun name => suffixOf name (stripWildcard domain)) queried /\
  StronglySorted (fun a b => len b < len a) queried.
Proof.
  remember (len domain) as n eqn:Hn. revert domain Hn queried res.
  induction n as [n IH] using lt_wf_ind. intros domain -> queried res.
  rewrite unfold_check. unfold Check_body.
  assert (Hleaf : forall r : CheckResult,
             Some ([stripWildcard domain], r) = Some (queried, res) ->
             Forall (fun name => suffixOf name (stripWildcard domain)) queried /\
             StronglySorted (fun a b => len b < len a) queried).
  { intros r H. injection H as <- _. split.
    - constructor; [now exists "" | constructor].
    - constructor; constructor. }
  destruct (Lookup (stripWildcard domain)) as [rrs [e|]]; [apply Hleaf|].
  destruct (0 <? length rrs)%nat; [apply Hleaf|].
  destruct (negb (stripWildcard domain =? PublicSuffix (stripWildcard domain)));
    [|apply Hleaf].
  destruct (SplitN (stripWildcard domain) "." 2) as [|a [|parent rest]] eqn:Hsplit;
    try apply Hleaf.
  pose proof (SplitN_parent_shorter _ _ _ _ _ Hsplit) as Hshort.
  change (len ".") with 1 in Hshort.
  apply SplitN_label_parent in Hsplit. destruct Hsplit as [Hname _].
  pose proof (stripWildcard_len domain).
  destruct (check parent method) as [[qs r]|] eqn:Hp; [|discriminate].
  destruct (IH (len parent) ltac:(lia) parent eq_refl qs r Hp) as [Hsuf Hsorted].
  intros Hres.
  assert (Hq : queried = stripWildcard domain :: qs)
    by (destruct r as [ps [e|]|]; congruence).
  subst queried.
  assert (Hparent : suffixOf parent (stripWildcard domain)).
  { exists (a ++ "."). rewrite Hname at 1. now rewrite append_assoc. }
  assert (Hall : Forall (fun name => suffixOf name (stripWildcard domain)
                                     /\ len name < len (stripWildcard domain)) qs).
  { rewrite Forall_forall in *. intros name Hin. specialize (Hsuf name Hin).
    pose proof (suffixOf_trans _ _ _ Hsuf (stripWildcard_suffix parent)) as Hsp.
    split; [exact (suffixOf_trans _ _ _ Hsp Hparent)|].
    apply suffixOf_len in Hsp. lia. }
  split.
  - constructor; [now exists ""|].
    rewrite Forall_forall in *. intros name Hin. exact (proj1 (Hall name Hin)).
  - constructor; [exact Hsorted|].
    rewrite Forall_forall in *. intros name Hin. exact (proj2 (Hall name Hin)).
Qed.

(** X7.  The names [Check] looks up are suffixes of the name it was given,
    each strictly shorter than the one before: the walk only moves towards
    the root and never looks a name up twice. *)
Theorem Check_queries_shorten (domain : string) (method : ValidationMethod) :
  exists queried res,
    check domain method = Some (queried, res) /\
    Forall (fun name => suffixOf name domain) queried /\
    StronglySorted (fun a b => len b < len a) queried.
Proof.
  destruct (total_check domain method) as (queried & res & Hc).
  exists (stripWildcard domain :: queried), res. split; [exact Hc|].
  destruct (Check_queried_chain _ _ _ _ Hc) as [Hsuf Hsorted].
  split; [|exact Hsorted].
  rewrite Forall_forall in *. intros name Hin.
  exact (suffixOf_trans _ _ _ (Hsuf name Hin) (stripWildcard_suffix domain)).
Qed.

Lemma Check_levels_before_last (domain : string) (method : ValidationMethod)
    (queried : list string) (res : CheckResult) :
  check domain method = Some (queried, res) ->
  forall before name after,
    queried = (before ++ name :: after)%list -> after <> [] ->
    Lookup name = ([], None) /\ name <> PublicSuffix name.
Proof.
  remember (len domain) as n eqn:Hn. revert domain Hn queried res.
  induction n as [n IH] using lt_wf_ind. intros domain -> queried res.
  rewrite unfold_check. unfold Check_body.
  assert (Hleaf : forall r : CheckResult,
             Some ([stripWildcard domain], r) = Some (queried, res) ->
             forall before name after,
               queried = (before ++ name :: after)%list -> after <> [] ->
               Lookup name = ([], None) /\ name <> PublicSuffix name).
  { intros r H before name after Hq Hafter. injection H as <- _.
    destruct before as [|x [|y before]]; simpl in Hq; try discriminate.
    injection Hq as _ <-. now elim Hafter. }
  destruct (Lookup (stripWildcard domain)) as [rrs [e|]] eqn:Hl; [apply Hleaf|].
  destruct rrs as [|rr rrs]; cbn [length Nat.ltb Nat.leb]; [|apply Hleaf].
  destruct (stripWildcard domain =? PublicSuffix (stripWildcard domain)) eqn:Hps;
    cbn [negb]; [apply Hleaf|].
  apply String.eqb_neq in Hps.
  destruct (SplitN (stripWildcard domain) "." 2) as [|a [|parent rest]] eqn:Hsplit;
    try apply Hleaf.
  apply SplitN_parent_shorter in Hsplit. change (len ".") with 1 in Hsplit.
  pose proof (stripWildcard_len domain) as Hstrip.
  destruct (check parent method) as [[qs r]|] eqn:Hp; [|discriminate].
  specialize (IH (len parent) ltac:(lia) parent eq_refl qs r Hp).
  intros Hres.
  assert (Hq : queried = stripWildcard domain :: qs)
    by (destruct r as [ps [e|]|]; congruence).
  intros before name after Hqueried Hafter. rewrite Hq in Hqueried.
  destruct before as [|x before]; simpl in Hqueried.
  - injection Hqueried as <- _. auto.
  - injection Hqueried as _ Hqueried. exact (IH before name after Hqueried Hafter).
Qed.

(** X8.  The walk goes past a name only when that name answered with no
    record and no error and is not its own public suffix: this holds of
    every name looked up but the last.  So the first level that answers
    with a record, fails, or is a public suffix ends the walk. *)
Theorem Check_stops_at_first_answer (domain : string) (method : ValidationMethod) :
  exists queried res,
    Check ValidationMethod Lookup PublicSuffix dnsLookupFailed CAA_String domain method =
    Some (queried, res) /\
    forall before name after,
      queried = (before ++ name :: after)%list -> after <> [] ->
      Lookup name = ([], None) /\ name <> PublicSuffix name.
Proof.
  destruct (total_check domain method) as (queried & res & Hc).
  exists (stripWildcard domain :: queried), res. split; [exact Hc|].
  exact (Check_levels_before_last _ _ _ _ Hc).
Qed.

(** X9.  Inheritance: when a name answers with no record and is not its own
    public suffix, the outcome of [Check] is the outcome for the rest of the
    name after its first dot, with the name put before the names looked
    up. *)
Theorem Check_inherits_parent (domain : string) (method : ValidationMethod)
    (label parent : string) :
  Lookup (stripWildcard domain) = ([], None) ->
  stripWildcard domain <> PublicSuffix (stripWildcard domain) ->
  stripWildcard domain = label ++ String "." parent ->
  ~ In "."%char (list_ascii_of_string label) ->
  exists queried res,
    check parent method = Some (queried, res) /\
    check domain method = Some (stripWildcard domain :: queried, res).
Proof.
  intros Hl Hps Hname Hlabel.
  destruct (total_check parent method) as (queried & res & Hp).
  exists (stripWildcard parent :: queried), res. split; [exact Hp|].
  rewrite unfold_check. unfold Check_body. rewrite Hl. cbn [length Nat.ltb Nat.leb].
  apply String.eqb_neq in Hps. rewrite Hps. cbn [negb].
  rewrite Hname at 1. rewrite (SplitN_two_at label parent "." Hlabel), Hp.
  destruct res as [probs [e|]|]; try reflexivity.
  apply (Check_error_nil ValidationMethod Lookup PublicSuffix dnsLookupFailed CAA_String) in Hp.
  discriminate.
Qed.

(** X10.  The wildcard marker matters at the level of the name only: when
    the name itself does not answer with records, the check of the
    wildcard name is the check of the name, so the parent levels are
    evaluated as for a name that is no wildcard. *)
Theorem wildcard_marker_moot_above (domain : string) (method : ValidationMethod) :
  isWildcard domain = false ->
  (forall rrs, Lookup domain = (rrs, None) -> rrs = []) ->
  check ("*." ++ domain) method = check domain method.
Proof.
  intros Hplain Hempty.
  assert (Hwild : isWildcard ("*." ++ domain) = true).
  { unfold isWildcard, HasPrefix. simpl.
    destruct (ascii_dec "*" "*") as [_|Hne]; [|now elim Hne].
    destruct (ascii_dec "." ".") as [_|Hne]; [|now elim Hne].
    apply prefix_empty. }
  rewrite (unfold_check ("*." ++ domain)), (unfold_check domain). unfold Check_body.
  unfold stripWildcard. rewrite Hwild, Hplain. cbn [append drop].
  destruct (Lookup domain) as [rrs [e|]] eqn:Hl; [reflexivity|].
  rewrite (Hempty rrs eq_refl). reflexivity.
Qed.

Section NoPanic.

Hypothesis suffix_of_label :
  forall name, ~ In "."%char (list_ascii_of_string name) -> PublicSuffix name = name.

(** X11.  When the public suffix of a name without a dot is the name itself,
    [Check] never stops on the index expression [splitDomain[1]]: every
    call returns a list of findings and a nil error. *)
Theorem Check_never_panics (domain : string) (method : ValidationMethod) :
  exists queried probs,
    Check ValidationMethod Lookup PublicSuffix dnsLookupFailed CAA_String domain method =
    Some (queried, Returned probs None).
Proof.
  remember (len domain) as n eqn:Hn. revert domain Hn.
  induction n as [n IH] using lt_wf_ind. intros domain ->.
  rewrite unfold_check. unfold Check_body.
  destruct (Lookup (stripWildcard domain)) as [rrs [e|]]; [eauto|].
  destruct (0 <? length rrs)%nat; [eauto|].
  destruct (stripWildcard domain =? PublicSuffix (stripWildcard domain)) eqn:Hps;
    cbn [negb]; [eauto|].
  apply String.eqb_neq in Hps.
  destruct (SplitN (stripWildcard domain) "." 2) as [|a [|parent rest]] eqn:Hsplit.
  - now elim (SplitN_two_nonempty _ _ Hsplit).
  - exfalso. apply Hps. symmetry. apply suffix_of_label, SplitN_single.
    intros a' parent' rest'. rewrite Hsplit. discriminate.
  - apply SplitN_parent_shorter in Hsplit. change (len ".") with 1 in Hsplit.
    pose proof (stripWildcard_len domain) as Hstrip.
    destruct (IH (len parent) ltac:(lia) parent eq_refl) as (queried & probs & ->).
    eauto.
Qed.

End NoPanic.

End CAAWalk.

Lemma Check_inherits_parent_witness :
  policyLookup (stripWildcard "www.example.com") = ([], None) /\
  stripWildcard "www.example.com" <> lastLabel (stripWildcard "www.example.com") /\
  exists queried res,
    Check unit policyLookup lastLabel exampleLookupFailed exampleCAAString "example.com" tt =
    Some (queried, res) /\
    Check unit policyLookup lastLabel exampleLookupFailed exampleCAAString "www.example.com" tt =
    Some ("www.example.com" :: queried, res).
Proof.
  assert (Hps : stripWildcard "www.example.com" <> lastLabel (stripWildcard "www.example.com"))
    by (vm_compute; discriminate).
  split; [reflexivity|]. split; [exact Hps|].
  apply (Check_inherits_parent unit policyLookup lastLabel exampleLookupFailed
           exampleCAAString "www.example.com" tt "www" "example.com" eq_refl Hps eq_refl).
  simpl. intros H. repeat (destruct H as [H|H]; [discriminate H|]). exact H.
Defined.

Lemma wildcard_marker_moot_above_witness :
  isWildcard "www.example.com" = false /\
  policyLookup "www.example.com" = ([], None) /\
  Check unit policyLookup lastLabel exampleLookupFailed exampleCAAString "*.www.example.com" tt =
  Check unit policyLookup lastLabel exampleLookupFailed exampleCAAString "www.example.com" tt.
Proof.
  split; [reflexivity|]. split; [reflexivity|].
  apply (wildcard_marker_moot_above unit policyLookup lastLabel exampleLookupFailed
           exampleCAAString "www.example.com" tt eq_refl).
  intros rrs H. vm_compute in H. now injection H as <-.
Defined.

Lemma Check_never_panics_witness :
  (forall name, ~ In "."%char (list_ascii_of_string name) -> lastLabel name = name) /\
  exists queried probs,
    Check unit mixedLookup lastLabel exampleLookupFailed exampleCAAString "*.www.example.org" tt =
    Some (queried, Returned probs None).
Proof.
  split; [exact lastLabel_of_label|].
  exact (Check_never_panics unit mixedLookup lastLabel exampleLookupFailed exampleCAAString
           lastLabel_of_label "*.www.example.org" tt).
Defined.

(** ** The client and [checkHTTP] *)

Section HTTPOutcomes.

Variable URL_String : URL -> string.
Variable IP_String : net_IP -> string.
Variable url_Parse : string -> URL + error.
Variable send : net_IP -> Request -> RoundTrip.
Variable internalProblem : string -> SeverityLevel -> Problem.

Local Abbreviation callback := (CheckRedirect URL_String).
Local Abbreviation client := (client_Do URL_String send).
Local Abbreviation translate := (translateHTTPError IP_String).
Local Abbreviation check := (checkHTTP URL_String IP_String url_Parse send internalProblem).

(** More requests than ten change nothing. *)
Lemma client_Do_stable (fuel1 : nat) :
  forall (fuel2 : nat) (address : net_IP) (reqs : list Request) (req : Request)
         (redirErr : string),
    0 < fuel1 -> 0 < fuel2 ->
    10 <= length reqs + fuel1 -> 10 <= length reqs + fuel2 ->
    client fuel1 address reqs req redirErr = client fuel2 address reqs req redirErr.
Proof.
  induction fuel1 as [|fuel1 IH]; intros fuel2 address reqs req redirErr H1 H2 Hsum1 Hsum2; [lia|].
  destruct fuel2 as [|fuel2]; [lia|]. cbn [client_Do].
  destruct (send address req) as [err|resp]; [reflexivity|].
  destruct (resp_Location resp) as [loc|]; [|reflexivity].
  destruct (Nat.le_gt_cases 10 (length (reqs ++ [req]))) as [Hmany|Hfew].
  - now rewrite (CheckRedirect_too_many URL_String _ _ _ Hmany).
  - destruct (callback (mkRequest loc (Header req)) (reqs ++ [req])%list redirErr)
      as [[err|] redirErr']; [reflexivity|].
    rewrite length_app in Hfew. simpl in Hfew.
    apply IH; rewrite ?length_app; simpl; lia.
Qed.

(** X12.  [checkHTTP] sends at most ten requests: ten rounds of the client
    are enough for every site, and allowing more changes nothing. *)
Theorem checkHTTP_ten_requests_suffice (fuel : nat) (domain : string) (address : net_IP) :
  10 <= fuel ->
  check fuel domain address = check 10 domain address /\
  exists res problem, check 10 domain address = Some (res, problem).
Proof.
  intros Hfuel. split.
  - unfold checkHTTP. destruct (url_Parse (firstURL domain)) as [u|err]; [|reflexivity].
    rewrite (client_Do_stable fuel 10); [reflexivity | lia | lia | simpl; lia | simpl; lia].
  - destruct (checkHTTP_total URL_String IP_String url_Parse send internalProblem
                10 domain address (le_n 10)) as [[res problem] H].
    now exists res, problem.
Qed.



(** X14.  What [translateHTTPError] tells: every problem it builds is of
    severity Error and carries the text of the error in its detail; it is
    [BadRedirect] exactly for a [redirectError]; it blames the AAAA record
    only for an address that is no IPv4 address, the A record only for one
    that is, and the web server only for the text of a plain HTTP answer to
    a TLS handshake. *)
Theorem translateHTTPError_classes (domain : string) (address : net_IP) (e : error) :
  let problem := translate domain address e in
  Severity problem = SeverityError /\
  (exists before after, Detail problem = before ++ Error e ++ after) /\
  (Name problem = "BadRedirect" <-> exists msg, e = redirectError msg) /\
  (Name problem = "AAAANotWorking" -> To4 address = None) /\
  (Name problem = "ANotWorking" -> To4 address <> None) /\
  (Name problem = "WebserverMisconfiguration" ->
   HasSuffix (Error e) "http: server gave HTTP response to HTTPS client" = true).
Proof.
  assert (Hother : forall e', (forall msg, e' <> redirectError msg) ->
            let problem :=
              if HasSuffix (Error e') "http: server gave HTTP response to HTTPS client"
              then httpServerMisconfiguration domain
                     ("Web server is serving the wrong protocol on the wrong port: " ++ Error e'
                      ++ ". This may be due to a previous HTTP redirect rather than a webserver misconfiguration.")
              else match To4 address with
                   | None => aaaaNotWorking domain (IP_String address) e'
                   | Some _ => aNotWorking domain (IP_String address) e'
                   end in
            Severity problem = SeverityError /\
            (exists before after, Detail problem = before ++ Error e' ++ after) /\
            (Name problem = "BadRedirect" <-> exists msg, e' = redirectError msg) /\
            (Name problem = "AAAANotWorking" -> To4 address = None) /\
            (Name problem = "ANotWorking" -> To4 address <> None) /\
            (Name problem = "WebserverMisconfiguration" ->
             HasSuffix (Error e') "http: server gave HTTP response to HTTPS client" = true)).
  { intros e' Hnot. cbv zeta.
    destruct (HasSuffix (Error e') _) eqn:Hsig.
    - repeat split; try discriminate.
      + eexists. eexists. cbn [Detail httpServerMisconfiguration]. reflexivity.
      + intros (msg & ->). now elim (Hnot msg).
    - destruct (To4 address) eqn:H4.
      + repeat split; try discriminate.
        * exists "", "". cbn. now rewrite append_empty_r.
        * intros (msg & ->). now elim (Hnot msg).
      + repeat split; try discriminate.
        * exists "", "". cbn. now rewrite append_empty_r.
        * intros (msg & ->). now elim (Hnot msg). }
  destruct e as [msg|op url inner|msg].
  - cbn. repeat split; try discriminate.
    + exists "", "". cbn. now rewrite append_empty_r.
    + now exists msg.
  - apply Hother. discriminate.
  - apply Hother. discriminate.
Qed.

End HTTPOutcomes.

Lemma checkHTTP_ten_requests_suffice_witness :
  10 <= 25 /\
  checkHTTP plainURLString exampleIPString exampleParse (redirectingServer 12) exampleInternal
    25 "example.com" exampleAddress =
  checkHTTP plainURLString exampleIPString exampleParse (redirectingServer 12) exampleInternal
    10 "example.com" exampleAddress.
Proof.
  assert (Hfuel : 10 <= 25) by (repeat constructor).
  split; [exact Hfuel|].
  exact (proj1 (checkHTTP_ten_requests_suffice plainURLString exampleIPString exampleParse
                  (redirectingServer 12) exampleInternal 25 "example.com" exampleAddress Hfuel)).
Defined.


(** ** Ports, dial targets and the text of a result *)

Section Ports.

Lemma LastIndexByte_last (host port : string) (c : ascii) :
  ~ In c (list_ascii_of_string port) ->
  LastIndexByte (host ++ String c port) c = Some (len host).
Proof.
  intros Hno. induction host as [|d host IH]; simpl.
  - now rewrite (LastIndexByte_none port c Hno), Ascii.eqb_refl.
  - now rewrite IH.
Qed.

Lemma plain_hostport (host port : string) (c : ascii) :
  c <> ":"%char ->
  ~ In c (list_ascii_of_string host) -> ~ In c (list_ascii_of_string port) ->
  ~ In c (list_ascii_of_string (host ++ String ":" port)).
Proof.
  intros Hc Hhost Hport. rewrite chars_append. intros Hin.
  apply in_app_or in Hin. destruct Hin as [Hin|[Heq|Hin]]; auto.
Qed.

Lemma HasPrefix_bracket (host rest : string) :
  ~ In "["%char (list_ascii_of_string host) ->
  HasPrefix (host ++ String ":" rest) "[" = false.
Proof.
  unfold HasPrefix. destruct host as [|d host]; intros Hno.
  - reflexivity.
  - cbn [append String.prefix]. destruct (ascii_dec "[" d) as [Heq|]; [|reflexivity].
    exfalso. apply Hno. left. now symmetry.
Qed.

(** A host and a port without colon and brackets, joined by a colon, are
    split into the two again. *)
Lemma SplitHostPort_plain (host port : string) :
  plainName host -> plainName port ->
  SplitHostPort (host ++ String ":" port) = Some (host, port).
Proof.
  intros (Hc & Hl & Hr) (Hpc & Hpl & Hpr). unfold SplitHostPort, IndexByte.
  rewrite (LastIndexByte_last host port ":" Hpc), (HasPrefix_bracket host port Hl).
  rewrite take_append, (Index_byte_absent host ":" Hc).
  rewrite (Index_byte_absent _ "[" (plain_hostport host port "[" ltac:(discriminate) Hl Hpl)).
  rewrite (Index_byte_absent _ "]" (plain_hostport host port "]" ltac:(discriminate) Hr Hpr)).
  replace (len host + 1) with (len (host ++ ":")) by (rewrite len_append; reflexivity).
  replace (host ++ String ":" port) with ((host ++ ":") ++ port)
    by (rewrite append_assoc; reflexivity).
  now rewrite drop_append.
Qed.

Variable URL_String : URL -> string.
Variable IP_String : net_IP -> string.

(** X15.  Every connection goes to the address under test: for whatever
    host the client asks, the dial target is that address with the port
    asked for, the address in square brackets when it is no IPv4
    address. *)
Theorem dialTarget_pinned (address : net_IP) (host port : string) :
  plainName host -> plainName port ->
  dialTarget IP_String address (host ++ String ":" port) =
  match To4 address with
  | None => "[" ++ IP_String address ++ "]:" ++ port
  | Some _ => IP_String address ++ ":" ++ port
  end.
Proof.
  intros Hhost Hport. unfold dialTarget.
  now rewrite (SplitHostPort_plain host port Hhost Hport).
Qed.

(** X16.  The port check of the redirect policy: a host without a port
    passes; a host with a port passes exactly when the port reads as 80 or
    443, and otherwise a redirect to it, among the first nine, is refused
    with the message that names the URL and the port. *)
Theorem explicit_port_checked (req : Request) (via : list Request) (redirErr : string)
    (host port : string) :
  plainName host -> plainName port ->
  badPort host = None /\
  badPort (host ++ String ":" port) =
  (if Z.eqb (Atoi port) 80 || Z.eqb (Atoi port) 443 then None else Some port) /\
  (length via < 10 ->
   Host (req_URL req) = host ++ String ":" port ->
   Atoi port <> 80%Z -> Atoi port <> 443%Z ->
   CheckRedirect URL_String req via redirErr =
   reject ("Bad port number provided when fetching " ++ URL_String (req_URL req) ++ ": " ++ port)).
Proof.
  intros Hhost Hport.
  assert (Hbad : badPort (host ++ String ":" port) =
                 (if Z.eqb (Atoi port) 80 || Z.eqb (Atoi port) 443 then None else Some port)).
  { unfold badPort. rewrite (SplitHostPort_plain host port Hhost Hport).
    destruct (Z.eqb (Atoi port) 80); [reflexivity|].
    destruct (Z.eqb (Atoi port) 443); reflexivity. }
  split; [|split; [exact Hbad|]].
  - unfold badPort, SplitHostPort.
    now rewrite (LastIndexByte_none host ":" (proj1 Hhost)).
  - intros Hlen Hurl H80 H443. unfold CheckRedirect.
    destruct (10 <=? length via)%nat eqn:Hmany; [apply Nat.leb_le in Hmany; lia|].
    rewrite Hurl, Hbad.
    apply Z.eqb_neq in H80. apply Z.eqb_neq in H443. now rewrite H80, H443.
Qed.

(** X17.  The text of a result names the address family the diagnostic
    blames: when [translateHTTPError] blames the A record for the address
    of a result, the text of the result says IPv4, and when it blames the
    AAAA record, IPv6. *)
Theorem result_text_names_family (domain : string) (r : httpCheckResult) (e : error) :
  let problem := translateHTTPError IP_String domain (IP r) e in
  (Name problem = "ANotWorking" ->
   HasPrefix (httpCheckResult_String r) "[Address Type=IPv4,Response Code=" = true) /\
  (Name problem = "AAAANotWorking" ->
   HasPrefix (httpCheckResult_String r) "[Address Type=IPv6,Response Code=" = true).
Proof.
  unfold translateHTTPError, httpCheckResult_String.
  destruct e as [msg|op url inner|msg]; cbv zeta;
    try (split; discriminate);
    (destruct (HasSuffix _ _); [split; discriminate|]);
    destruct (To4 (IP r)); split; try discriminate; intros _;
    unfold HasPrefix; simpl; apply prefix_empty.
Qed.

End Ports.

Lemma plainName_example_com : plainName "example.com".
Proof.
  repeat split; simpl; intros H; repeat (destruct H as [H|H]; [discriminate H|]); exact H.
Qed.

Lemma plainName_8443 : plainName "8443".
Proof.
  repeat split; simpl; intros H; repeat (destruct H as [H|H]; [discriminate H|]); exact H.
Qed.

Lemma dialTarget_pinned_witness :
  plainName "example.com" /\ plainName "8443" /\
  dialTarget exampleIPString exampleAddress "example.com:8443" = "192.0.2.1:8443".
Proof.
  split; [exact plainName_example_com|]. split; [exact plainName_8443|].
  exact (dialTarget_pinned exampleIPString exampleAddress "example.com" "8443"
           plainName_example_com plainName_8443).
Defined.

Lemma explicit_port_checked_witness :
  plainName "example.com" /\ plainName "8443" /\
  badPort "example.com" = None /\ badPort "example.com:8443" = Some "8443".
Proof.
  split; [exact plainName_example_com|]. split; [exact plainName_8443|].
  destruct (explicit_port_checked plainURLString (mkRequest (hopURL 1) firstHeader) [] ""
              "example.com" "8443" plainName_example_com plainName_8443) as (Hnone & Hbad & _).
  split; [exact Hnone | exact Hbad].
Defined.

(** X18.  The whole of the redirect policy: the callback lets a redirect
    pass exactly when fewer than ten requests have been made and the target
    has an acceptable port, an acceptable scheme and a hostname that does
    not end in [.well-known]; it then leaves the variable as it was, and
    otherwise it stores the message of the error it returns. *)
Theorem CheckRedirect_accepts_iff (URL_String : URL -> string)
    (req : Request) (via : list Request) (redirErr : string) :
  (fst (CheckRedirect URL_String req via redirErr) = None <->
   length via < 10 /\ hopAccepted (req_URL req) = true) /\
  (fst (CheckRedirect URL_String req via redirErr) = None ->
   snd (CheckRedirect URL_String req via redirErr) = redirErr) /\
  (forall e, fst (CheckRedirect URL_String req via redirErr) = Some e ->
             e = redirectError (snd (CheckRedirect URL_String req via redirErr))).
Proof.
  split; [split|split].
  - unfold CheckRedirect, hopAccepted, portAccepted, schemeAccepted.
    destruct (10 <=? length via)%nat eqn:Hmany; [discriminate|].
    apply Nat.leb_gt in Hmany.
    destruct (badPort (Host (req_URL req))); [discriminate|].
    destruct (ToLower (Scheme (req_URL req)) =? "http");
      destruct (ToLower (Scheme (req_URL req)) =? "https");
      destruct (HasSuffix (Hostname (req_URL req)) ".well-known");
      simpl; intros H; try discriminate H; auto.
  - intros [Hlen Hok]. now rewrite (CheckRedirect_accepts URL_String req via redirErr Hlen Hok).
  - destruct (CheckRedirect_result URL_String req via redirErr) as [-> | (c & msg & ->)];
      [reflexivity | discriminate].
  - intros e. destruct (CheckRedirect_result URL_String req via redirErr) as [-> | (c & msg & ->)];
      [discriminate|].
    simpl. now intros [= <-].
Qed.
